(** * nedb-indexeddb: the persistence layer ([src/persistence.js])

    A shallow embedding of [Persistence] (the IndexedDB back end of an
    embedded document store) and the properties of its four operations:
    [openDbEnsureStore], [persistCachedDatabase], [persistNewState] and
    [loadDatabase].

    The JavaScript is callback driven; every suspension point is a store
    request whose handler issues at most one further request, so that one
    request is in flight at any time.  The embedding therefore runs the
    handlers in the order in which the engine fires them and threads the
    transaction through them. *)

From Stdlib Require Import ZArith String Ascii List Bool Lia.
From stdpp Require Import base gmap strings list.
Import ListNotations.

Local Open Scope string_scope.
Local Open Scope Z_scope.

(** ** Documents *)

(** A document as the persistence layer reads it: the key [_id], the
    truthiness of the three reserved fields [$$deleted], [$$indexCreated]
    and [$$indexRemoved], and the remaining fields. *)
Record doc := mkDoc {
  _id : string;
  deleted : bool;
  indexCreated : bool;
  indexRemoved : bool;
  fields : list (string * string)
}.

(** An ordinary document [{_id: k, ...fs}]. *)
Definition plain (k : string) (fs : list (string * string)) : doc :=
  mkDoc k false false false fs.

(** A tombstone [{_id: k, $$deleted: true}]. *)
Definition tombstone (k : string) : doc := mkDoc k true false false [].

(** ** JavaScript arrays: [indexOf] and [splice] *)

Module JsArray.

(** [arr.indexOf(x)]: the first position of [x], [-1] when absent. *)
Fixpoint indexOf (x : string) (arr : list string) : Z :=
  match arr with
  | [] => -1
  | y :: arr' =>
      if String.eqb y x then 0
      else let i := indexOf x arr' in if i =? -1 then -1 else i + 1
  end.

(** [arr.splice(start, deleteCount)], the array that is left: a negative
    [start] counts from the end, both arguments are clamped to the array. *)
Definition splice (start deleteCount : Z) (arr : list string) : list string :=
  let len := Z.of_nat (length arr) in
  let actualStart := if start <? 0 then Z.max (len + start) 0 else Z.min start len in
  let actualDeleteCount := Z.min (Z.max deleteCount 0) (len - actualStart) in
  firstn (Z.to_nat actualStart) arr
    ++ skipn (Z.to_nat (actualStart + actualDeleteCount)) arr.

End JsArray.

(** ** The object store

    The store is created with [keyPath: "_id"]; its records are kept in
    ascending key order, which is the order of a forward cursor. *)

Module ObjectStore.

Fixpoint put (o : doc) (records : list doc) : list doc :=
  match records with
  | [] => [o]
  | r :: records' =>
      match String.compare (_id o) (_id r) with
      | Lt => o :: r :: records'
      | Eq => o :: records'
      | Gt => r :: put o records'
      end
  end.

Definition delete (k : string) (records : list doc) : list doc :=
  List.filter (fun r => negb (String.eqb (_id r) k)) records.

(** The keys a forward cursor visits, in order. *)
Definition keys (records : list doc) : list string := map _id records.

End ObjectStore.

(** ** The IndexedDB engine *)

(** A database: its schema version and its named object stores.  A database
    that was never opened is absent from the engine; IndexedDB treats it as
    a database of version 0 without stores. *)
Record database := mkDatabase {
  version : N;
  objectStores : gmap string (list doc)
}.

Definition contains (storeName : string) (db : database) : bool :=
  bool_decide (is_Some (objectStores db !! storeName)).

Inductive mode := readonly | readwrite.

(** What an operation does to its surroundings, in the order it happens:
    requests to the engine (with their outcome), calls of the caller's
    [callback], calls into the owning datastore, console output and
    exceptions that leave an event handler. *)
Inductive event :=
| EvOpen (dbName : string) (requested : option N)
| EvUpgradeNeeded (dbName : string) (oldVersion newVersion : N)
| EvCreateObjectStore (dbName storeName : string)
| EvClose (dbName : string)
| EvTransaction (storeName : string) (m : mode)
| EvOpenCursor
| EvPut (k : string) (ok : bool)
| EvDelete (k : string) (ok : bool)
| EvCallback (err : option string)
| EvConsoleError (msg : string)
| EvUncaught (msg : string)
| EvResetIndexes (docs : option (list doc))
| EvProcessBuffer.

(** How the engine treats a failed request.  IndexedDB lets the error event
    bubble to the transaction and, the default not being prevented, aborts
    the transaction and rolls it back ([RequestErrorAborts]).  An engine whose
    request errors stay with the request commits what succeeded
    ([RequestErrorIsLocal]). *)
Inductive trx_policy := RequestErrorAborts | RequestErrorIsLocal.

(** Everything the code does not decide: which requests the engine fails,
    how it treats a failed request, how it prints its error, and the global
    property [window.inMemoryOnly] (truthiness). *)
Record environment := mkEnv {
  open_fails : string -> option N -> bool;
  put_fails : string -> bool;
  delete_fails : string -> bool;
  policy : trx_policy;
  request_error : string;
  window_inMemoryOnly : bool
}.

(** The engine, what happened so far, and the databases of the handles
    that [openDbEnsureStore] handed out and nothing closed since: each of
    them has the [onversionchange] handler of that function.  Handles of
    other code are not followed. *)
Record world := mkWorld {
  indexedDB : gmap string database;
  trace : list event;
  connections : list string
}.

Definition emit (e : event) (w : world) : world :=
  mkWorld (indexedDB w) (trace w ++ [e]) (connections w).

(** A running transaction on one object store. *)
Record transaction := mkTrx {
  records : list doc;                      (* the store as the transaction sees it *)
  error : option string;                   (* [trx.error]; set once aborted *)
  bubbling : bool;                         (* an error event is on its way up *)
  onerror : option string -> list event;   (* [trx.onerror], given [trx.error] *)
  oncomplete : list event;                 (* [trx.oncomplete] *)
  log : list event
}.

Definition set_onerror (h : option string -> list event) (t : transaction) :=
  mkTrx (records t) (error t) (bubbling t) h (oncomplete t) (log t).

Definition set_oncomplete (h : list event) (t : transaction) :=
  mkTrx (records t) (error t) (bubbling t) (onerror t) h (log t).

Definition note (es : list event) (t : transaction) :=
  mkTrx (records t) (error t) (bubbling t) (onerror t) (oncomplete t) (log t ++ es).

(** ["" + x] for an [x] that is [null] or an error object. *)
Definition js_string (x : option string) : string :=
  match x with None => "null" | Some s => s end.

Inductive open_result :=
| OpenSuccess (db : database)
| OpenError
| OpenThrew.

(** The largest version there is: the [version] argument of [open] is an
    [[EnforceRange] unsigned long long], and a JavaScript number above
    2^53 - 1 is out of its range. *)
Definition max_version : N := 9007199254740991.

(** The versions for which [open] throws a [TypeError]: 0, and what is out
    of range.  The code only ever passes [db.version + 1]; above
    [max_version] that sum is rounded, and out of range however rounded. *)
Definition invalid_version (requested : option N) : bool :=
  match requested with
  | Some v => (v =? 0)%N || (max_version <? v)%N
  | None => false
  end.

(** [db.onversionchange] as [openDbEnsureStore] sets it on the handles it
    hands out: [db.close()]. *)
Definition onversionchange (dbName : string) (w : world) : world :=
  emit (EvClose dbName) w.

(** Before a database is upgraded, every handle open on it gets a
    [versionchange] event; the handles followed here close on it, so that
    the upgrade is not blocked. *)
Definition versionchange (dbName : string) (w : world) : world :=
  let others := List.filter (String.eqb dbName) (connections w) in
  let w := fold_left (fun w n => onversionchange n w) others w in
  mkWorld (indexedDB w) (trace w)
          (List.filter (fun n => negb (String.eqb dbName n)) (connections w)).

Section Engine.

Variable env : environment.

(** [window.indexedDB.open(dbName, version)] with the request's
    [onupgradeneeded] handler.  A version that is 0 or out of range makes
    [open] throw a [TypeError]; a version below the current one is a
    [VersionError]; a version above it upgrades the database, once the
    other handles on it are closed. *)
Definition indexedDB_open (dbName : string) (requested : option N)
    (onupgradeneeded : database -> world -> database * world) (w : world)
  : world * open_result :=
  let w := emit (EvOpen dbName requested) w in
  if invalid_version requested then (emit (EvUncaught "TypeError") w, OpenThrew)
  else if open_fails env dbName requested then (w, OpenError)
  else
    let existing := indexedDB w !! dbName in
    let old := default (mkDatabase 0 ∅) existing in
    let new := match requested, existing with
               | Some v, _ => v
               | None, Some d => version d
               | None, None => 1%N
               end in
    if (new <? version old)%N then (w, OpenError)
    else if (version old <? new)%N then
      let w := versionchange dbName w in
      let w := emit (EvUpgradeNeeded dbName (version old) new) w in
      let '(db, w) := onupgradeneeded (mkDatabase new (objectStores old)) w in
      (mkWorld (<[dbName := db]> (indexedDB w)) (trace w) (connections w), OpenSuccess db)
    else (w, OpenSuccess old).

(** The error event of the last failed request reaches [trx.onerror];
    the transaction then aborts with the request's error. *)
Definition deliver (t : transaction) : transaction :=
  if bubbling t then
    mkTrx (records t) (Some (request_error env)) false (onerror t) (oncomplete t)
          (log t ++ onerror t (error t))
  else t.

Definition fail_request (e : event) (t : transaction) : transaction :=
  mkTrx (records t) (error t)
        (match policy env with RequestErrorAborts => true | RequestErrorIsLocal => false end)
        (onerror t) (oncomplete t) (log t ++ [e]).

(** [store.put(o)]: [true] when [onsuccess] fires, [false] when [onerror]
    fires.  A request placed in a transaction that aborts fails too. *)
Definition store_put (o : doc) (t : transaction) : transaction * bool :=
  let t := deliver t in
  if bool_decide (is_Some (error t)) || put_fails env (_id o)
  then (fail_request (EvPut (_id o) false) t, false)
  else (mkTrx (ObjectStore.put o (records t)) (error t) (bubbling t) (onerror t)
              (oncomplete t) (log t ++ [EvPut (_id o) true]), true).

(** [store.delete(k)]. *)
Definition store_delete (k : string) (t : transaction) : transaction * bool :=
  let t := deliver t in
  if bool_decide (is_Some (error t)) || delete_fails env k
  then (fail_request (EvDelete k false) t, false)
  else (mkTrx (ObjectStore.delete k (records t)) (error t) (bubbling t) (onerror t)
              (oncomplete t) (log t ++ [EvDelete k true]), true).

(** [store.openCursor()] followed to its end: the records in key order. *)
Definition store_openCursor (t : transaction) : transaction * list doc :=
  (note [EvOpenCursor] t, records t).

(** No request is pending and no handler places another one: the
    transaction commits and [oncomplete] fires, unless it was aborted. *)
Definition settle (t : transaction) : transaction :=
  let t := deliver t in
  match error t with
  | Some _ => t
  | None => note (oncomplete t) t
  end.

(** The world once the transaction on [storeName] of [dbName] is over. *)
Definition finish (dbName storeName : string) (db : database) (w : world)
    (t : transaction) : world :=
  let t := settle t in
  match error t with
  | Some _ => mkWorld (indexedDB w) (log t) (connections w)
  | None =>
      mkWorld (<[dbName := mkDatabase (version db)
                             (<[storeName := records t]> (objectStores db))]> (indexedDB w))
              (log t) (connections w)
  end.

End Engine.

(** ** [async.eachSeries]

    [iterator(x, callback)] either calls [callback()] ([Continue]), calls
    [callback(err)] with a truthy [err] ([Abort]), or never calls it
    ([Silent]).  The series calls its final callback once, with the first
    error or without one, and not at all when an iterator stays silent. *)

Inductive step := Continue | Abort (err : string) | Silent.

Inductive series_end := Finished (err : option string) | Unfinished.

Fixpoint eachSeries {A S : Type} (arr : list A) (iterator : A -> S -> S * step) (s : S)
  : S * series_end :=
  match arr with
  | [] => (s, Finished None)
  | x :: arr' =>
      match iterator x s with
      | (s', Continue) => eachSeries arr' iterator s'
      | (s', Abort err) => (s', Finished (Some err))
      | (s', Silent) => (s', Unfinished)
      end
  end.

(** ** The datastore and its persistence object *)

Record Datastore := mkDatastore {
  db_inMemoryOnly : bool;
  db_dbName : string;
  db_storeName : string;
  getAllData : list doc
}.

Record Persistence := mkPersistence {
  db : Datastore;
  inMemoryOnly : bool;
  dbName : string;
  storeName : string
}.

(** [new Persistence({db: d})] *)
Definition new_Persistence (d : Datastore) : Persistence :=
  mkPersistence d (db_inMemoryOnly d) (db_dbName d) (db_storeName d).

(** What becomes of the handler that mentions [k], a name no scope binds. *)
Definition reference_error : event := EvUncaught "ReferenceError: k is not defined".

(** The messages the handlers of a failed put and of a failed delete
    build. *)
Definition put_error (k : string) : string := "Error putting document " ++ k.
Definition delete_error (k : string) : string := "Error deleting document " ++ k.

Section Operations.

Variable env : environment.

(** [req.onupgradeneeded] of [openDbEnsureStore] *)
Definition onupgradeneeded (dbName storeName : string) (d : database) (w : world)
  : database * world :=
  if negb (contains storeName d)
  then (mkDatabase (version d) (<[storeName := []]> (objectStores d)),
        emit (EvCreateObjectStore dbName storeName) w)
  else (d, w).

(** The handle that is handed out stays open, with its [onversionchange]
    handler. *)
Definition keep_open (dbName : string) (w : world) : world :=
  mkWorld (indexedDB w) (trace w) (dbName :: connections w).

(** [openDbEnsureStore(dbName, version, storeName, callback)], the
    [version] argument being [requested] ([None] for [undefined]):
    [Some (inl err)] for [callback(err)], [Some (inr db)] for
    [callback(null, db)], [None] when the callback is not reached, [open]
    having thrown.  Each opening takes one unit of [fuel]. *)
Fixpoint openDbEnsureStore (fuel : nat) (dbName : string) (requested : option N)
    (storeName : string) (w : world) : world * option (string + database) :=
  match fuel with
  | O => (w, None)
  | S fuel' =>
      match indexedDB_open env dbName requested (onupgradeneeded dbName storeName) w with
      | (w, OpenError) => (w, Some (inl "Error opening IndexedDB"))
      | (w, OpenThrew) => (w, None)
      | (w, OpenSuccess d) =>
          if negb (contains storeName d) then
            let nextVersion := (version d + 1)%N in
            let w := emit (EvClose dbName) w in
            openDbEnsureStore fuel' dbName (Some nextVersion) storeName w
          else (keep_open dbName w, Some (inr d))
      end
  end.

(** Two openings always suffice (see [openDbEnsureStore_fuel]). *)
Definition open_depth : nat := 2.

Definition openIndexedDB (self : Persistence) (w : world)
  : world * option (string + database) :=
  openDbEnsureStore open_depth (dbName self) None (storeName self) w.

(** [db.transaction(storeName, m)] and [trx.objectStore(storeName)] *)
Definition openTransaction (m : mode) (self : Persistence) (w : world)
  : world * option (string + database * transaction) :=
  match openDbEnsureStore open_depth (dbName self) None (storeName self) w with
  | (w, None) => (w, None)
  | (w, Some (inl err)) => (w, Some (inl err))
  | (w, Some (inr d)) =>
      match objectStores d !! storeName self with
      | None => (emit (EvUncaught "NotFoundError") w, None)
      | Some rs =>
          (w, Some (inr (d, mkTrx rs None false (fun _ => []) []
                                  (trace w ++ [EvTransaction (storeName self) m]))))
      end
  end.

Definition openWriteTransaction := openTransaction readwrite.
Definition openReadTransaction := openTransaction readonly.

(** *** [persistCachedDatabase] *)

(** [putReq.onsuccess], the part before [callback()] *)
Definition putReq_onsuccess (o : doc) (keysToDelete : list string) : list string :=
  if JsArray.indexOf (_id o) keysToDelete =? -1
  then JsArray.splice (JsArray.indexOf (_id o) keysToDelete) 1 keysToDelete
  else keysToDelete.

Definition put_iterator (o : doc) (s : transaction * list string)
  : (transaction * list string) * step :=
  let '(trx, keysToDelete) := s in
  let '(trx, ok) := store_put env o trx in
  if ok then ((trx, putReq_onsuccess o keysToDelete), Continue)
  else ((trx, keysToDelete), Abort (put_error (_id o))).

Definition delete_iterator (k : string) (trx : transaction) : transaction * step :=
  let '(trx, ok) := store_delete env k trx in
  if ok then (trx, Continue) else (trx, Abort (delete_error k)).

(** The [else] branch of [curReq.onsuccess]: both series. *)
Definition cursor_done (objects : list doc) (trx : transaction)
    (keysToDelete : list string) : transaction * list string :=
  match eachSeries objects put_iterator (trx, keysToDelete) with
  | (s, Unfinished) => s
  | ((trx, keysToDelete), Finished err) =>
      let trx := match err with
                 | Some e => note [EvCallback (Some e)] trx
                 | None => trx
                 end in
      match eachSeries keysToDelete delete_iterator trx with
      | (trx, Finished (Some e)) => (note [EvConsoleError e] trx, keysToDelete)
      | (trx, _) => (trx, keysToDelete)
      end
  end.

Definition persistCachedDatabase (self : Persistence) (w : world) : world :=
  if inMemoryOnly self then emit (EvCallback None) w
  else
    let objects := getAllData (db self) in
    match openWriteTransaction self w with
    | (w, None) => w
    | (w, Some (inl err)) => emit (EvCallback (Some err)) w
    | (w, Some (inr (conn, trx))) =>
        let trx := set_onerror (fun e =>
          [EvCallback (Some ("Error persisting cached data:" ++ js_string e))]) trx in
        let trx := set_oncomplete [EvCallback None] trx in
        let '(trx, cursor) := store_openCursor trx in
        let keysToDelete := map _id cursor in
        finish env (dbName self) (storeName self) conn w
               (fst (cursor_done objects trx keysToDelete))
    end.

(** *** [persistNewState] *)

Definition persistNewState_iterator (o : doc) (trx : transaction) : transaction * step :=
  if deleted o then
    let '(trx, ok) := store_delete env (_id o) trx in
    if ok then (trx, Continue)
    else (note [reference_error] trx, Silent)
  else if negb (indexCreated o) && negb (indexRemoved o) then
    let '(trx, ok) := store_put env o trx in
    if ok then (trx, Continue)
    else (trx, Abort (put_error (_id o)))
  else (trx, Silent).

(** The final callback of the series takes no argument: its [err] is the
    one of the enclosing function. *)
Definition persistNewState_done (err : option string) (trx : transaction) : transaction :=
  match err with
  | Some e => note [EvConsoleError e] trx
  | None => trx
  end.

Definition persistNewState_series (err : option string) (objects : list doc)
    (trx : transaction) : transaction :=
  match eachSeries objects persistNewState_iterator trx with
  | (trx, Finished _) => persistNewState_done err trx
  | (trx, Unfinished) => trx
  end.

Definition persistNewState (self : Persistence) (objects : list doc) (w : world) : world :=
  match openWriteTransaction self w with
  | (w, None) => w
  | (w, Some (inl err)) => emit (EvCallback (Some err)) w
  | (w, Some (inr (conn, trx))) =>
      let trx := set_onerror (fun e =>
        [EvCallback (Some ("Error persisting cached data: " ++ js_string e))]) trx in
      let trx := set_oncomplete [EvCallback None] trx in
      (* past [if (err) return callback(err)] the [err] of this function is
         falsy *)
      finish env (dbName self) (storeName self) conn w
             (persistNewState_series None objects trx)
  end.

(** *** [loadDatabase]

    The test of the in-memory mode reads [self.inMemoryOnly]; no [self] is
    bound in this function, so it is the global object. *)
Definition loadDatabase (this : Persistence) (w : world) : world :=
  let w := emit (EvResetIndexes None) w in
  if window_inMemoryOnly env then emit (EvCallback None) w
  else
    match openWriteTransaction this w with
    | (w, None) => w
    | (w, Some (inl err)) => emit (EvCallback (Some err)) w
    | (w, Some (inr (conn, trx))) =>
        let trx := set_onerror (fun e =>
          [EvCallback (Some ("Error loading database:" ++ js_string e))]) trx in
        let trx := set_oncomplete [EvProcessBuffer; EvCallback None] trx in
        let '(trx, objects) := store_openCursor trx in
        let trx := note [EvResetIndexes (Some objects)] trx in
        finish env (dbName this) (storeName this) conn w trx
    end.

End Operations.

(** ** Observations *)

(** The engine before an operation, nothing having happened yet and no
    handle being open. *)
Definition start (idb : gmap string database) : world := mkWorld idb [] [].

(** The records of the store of [self], as a later transaction would find
    them. *)
Definition durableRecords (self : Persistence) (w : world) : list doc :=
  match indexedDB w !! dbName self with
  | Some d => default [] (objectStores d !! storeName self)
  | None => []
  end.

Definition durableKeys (self : Persistence) (w : world) : list string :=
  ObjectStore.keys (durableRecords self w).

(** Two lists of keys that are the same set. *)
Definition same_keys (ks1 ks2 : list string) : Prop := forall k, In k ks1 <-> In k ks2.

(** Requests against the object store. *)
Definition is_request (e : event) : bool :=
  match e with
  | EvPut _ _ | EvDelete _ _ => true
  | _ => false
  end.

Definition requests (tr : list event) : list event := List.filter is_request tr.

(** What opening a database can leave in the trace. *)
Definition is_opening (e : event) : bool :=
  match e with
  | EvOpen _ _ | EvUpgradeNeeded _ _ _ | EvCreateObjectStore _ _ | EvClose _
  | EvUncaught _ => true
  | _ => false
  end.

(** Work on the records of a store: a transaction, a cursor, a put or a
    delete. *)
Definition touches_records (e : event) : bool :=
  match e with
  | EvTransaction _ _ | EvOpenCursor | EvPut _ _ | EvDelete _ _ => true
  | _ => false
  end.

(** [w] after the events [pre] have happened before its own. *)
Definition prefix_trace (pre : list event) (w : world) : world :=
  mkWorld (indexedDB w) (pre ++ trace w) (connections w).

Definition is_upgrade (e : event) : bool :=
  match e with
  | EvUpgradeNeeded _ _ _ => true
  | _ => false
  end.

Definition upgrades (tr : list event) : nat := length (List.filter is_upgrade tr).

(** Calls of the caller's callback. *)
Definition is_callback (e : event) : bool :=
  match e with EvCallback _ => true | _ => false end.

(** An event that [trx.onerror] of [t] produces. *)
Definition from_handler (t : transaction) (e : event) : Prop :=
  exists x, In e (onerror t x).

(** [t'] is [t] some steps later: the events [evs] were added to the log
    and the handlers are the same. *)
Definition extends (t t' : transaction) (evs : list event) : Prop :=
  log t' = (log t ++ evs)%list /\ onerror t' = onerror t /\ oncomplete t' = oncomplete t.

(** What the two series of [persistCachedDatabase] can add to the log. *)
Definition compaction_event (t : transaction) (e : event) : Prop :=
  from_handler t e \/ is_request e = true
  \/ (exists k, e = EvCallback (Some (put_error k)))
  \/ (exists k, e = EvConsoleError (delete_error k)).

(** A document that [persistNewState] handles without failure: a tombstone
    whose delete succeeds, or a document that is not a marker and whose put
    succeeds; the request it causes and its effect on the records. *)
Definition goes_through (env : environment) (o : doc) : bool :=
  if deleted o then negb (delete_fails env (_id o))
  else negb (indexCreated o) && negb (indexRemoved o) && negb (put_fails env (_id o)).

Definition request_of (o : doc) : event :=
  if deleted o then EvDelete (_id o) true else EvPut (_id o) true.

Definition apply_doc (rs : list doc) (o : doc) : list doc :=
  if deleted o then ObjectStore.delete (_id o) rs else ObjectStore.put o rs.

(** The write transaction of [self] can be opened. *)
Definition opens (env : environment) (self : Persistence) (idb : gmap string database) : bool :=
  match openWriteTransaction env self (start idb) with
  | (_, Some (inr _)) => true
  | _ => false
  end.

(** The engine fails an opening of the database of [self]: the first one,
    or, the store being missing, the second one, at the next version. *)
Definition opening_fails (env : environment) (self : Persistence)
    (idb : gmap string database) : Prop :=
  open_fails env (dbName self) None = true
  \/ exists d0,
       idb !! dbName self = Some d0 /\ contains (storeName self) d0 = false
       /\ (version d0 < max_version)%N
       /\ open_fails env (dbName self) (Some (version d0 + 1)%N) = true.

(** The second opening of the database of [self] throws: the store is
    missing and the version is the last one there is, so that
    [db.version + 1] is out of range. *)
Definition opening_throws (env : environment) (self : Persistence)
    (idb : gmap string database) : Prop :=
  open_fails env (dbName self) None = false
  /\ exists d0,
       idb !! dbName self = Some d0 /\ contains (storeName self) d0 = false
       /\ (max_version <= version d0)%N.

(** ** Engines and stores used in the examples *)

(** An engine on which every request succeeds. *)
Definition reliable (p : trx_policy) : environment :=
  mkEnv (fun _ _ => false) (fun _ => false) (fun _ => false) p "DataError" false.

(** An engine that fails every put and every delete of key [k]. *)
Definition failing_on (k : string) (p : trx_policy) : environment :=
  mkEnv (fun _ _ => false) (String.eqb k) (String.eqb k) p "DataError" false.

(** An engine on which no database can be opened. *)
Definition unreachable (p : trx_policy) : environment :=
  mkEnv (fun _ _ => true) (fun _ => false) (fun _ => false) p "DataError" false.

(** The datastore ["db"]/["docs"] holding [objects] in memory. *)
Definition datastore (objects : list doc) : Datastore :=
  mkDatastore false "db" "docs" objects.

(** An engine whose store ["docs"] of database ["db"] (version 1) holds one
    plain record per key. *)
Definition holding (ks : list string) : gmap string database :=
  {[ "db" := mkDatabase 1 {[ "docs" := map (fun k => plain k []) ks ]} ]}.

(** An index marker [{$$indexCreated: {fieldName: "name"}}]; it has no
    [_id]. *)
Definition indexMarker : doc := mkDoc "" false true false [("fieldName", "name")].

(** ** The claims that fail, as they are stated *)

(** C9 as it is stated: a failed put and a failed delete are both reported
    to the caller's callback with the record's key. *)
Definition reports_write_errors (env : environment) (self : Persistence)
    (idb : gmap string database) : Prop :=
  let tr := trace (persistCachedDatabase env self (start idb)) in
  forall k,
    (In (EvPut k false) tr -> In (EvCallback (Some (put_error k))) tr)
    /\ (In (EvDelete k false) tr -> In (EvCallback (Some (delete_error k))) tr).

(** The request that fails for [o], and what it means for [o] to have been
    processed in a run with trace [tr]. *)
Definition failed_request (o : doc) : event :=
  if deleted o then EvDelete (_id o) false else EvPut (_id o) false.

Definition processed (o : doc) (tr : list event) : Prop :=
  if deleted o then exists ok, In (EvDelete (_id o) ok) tr
  else if indexCreated o || indexRemoved o then True
  else exists ok, In (EvPut (_id o) ok) tr.

(** C4 as it is stated: whenever the request of a document of the delta
    fails, every document after it is still processed. *)
Definition log_and_continue (env : environment) (self : Persistence) (delta : list doc)
    (idb : gmap string database) : Prop :=
  let tr := trace (persistNewState env self delta (start idb)) in
  forall pre o post,
    delta = (pre ++ o :: post)%list -> In (failed_request o) tr ->
    forall o', In o' post -> processed o' tr.

(** ** Further observations *)

(** The records of store [s] of database [n], if there is such a store. *)
Definition records_of (n s : string) (idb : gmap string database) : option (list doc) :=
  match idb !! n with
  | Some d => objectStores d !! s
  | None => None
  end.

(** A transaction that has not come to its end: either the error event of a
    failed request is on its way to [trx.onerror] (on an engine that aborts
    on such an event), or nothing failed that would abort it. *)
Definition unsettled (env : environment) (t : transaction) : Prop :=
  bubbling t = true /\ policy env = RequestErrorAborts
  \/ error t = None /\ bubbling t = false.

(** The last call of a handler is a call of the callback. *)
Definition calls_back (evs : list event) : Prop :=
  exists l x, evs = (l ++ [EvCallback x])%list.


(** A request that failed. *)
Definition is_failure (e : event) : bool :=
  match e with
  | EvPut _ false | EvDelete _ false => true
  | _ => false
  end.

(** Nothing failed in the transaction so far. *)
Definition clean (t : transaction) : Prop := error t = None /\ bubbling t = false.

(** The transaction [t] some steps later, on an engine that aborts the
    transaction of a failed request: once the error event of a failed
    request is on its way, one is on its way ever after; and from a clean
    transaction either that is so, or the transaction is still clean and
    none of the events logged in between is a failed request. *)
Definition aborts_or_clean (t t' : transaction) : Prop :=
  (bubbling t = true -> bubbling t' = true)
  /\ (clean t ->
      bubbling t' = true
      \/ clean t' /\ exists evs, log t' = (log t ++ evs)%list
                                 /\ Forall (fun e => is_failure e = false) evs).

(** * Properties *)

(** ** Arrays and the object store on examples *)

Example indexOf_absent : JsArray.indexOf "b" ["a"; "c"] = -1.
Proof. reflexivity. Qed.

Example splice_last : JsArray.splice (-1) 1 ["a"; "c"; "d"] = ["a"; "c"].
Proof. reflexivity. Qed.

Example put_sorted :
  ObjectStore.keys (ObjectStore.put (plain "b" []) [plain "a" []; plain "c" []])
  = ["a"; "b"; "c"].
Proof. reflexivity. Qed.

(** The keys of the store after a put, the records after deletes. *)
Lemma put_keys (o : doc) (rs : list doc) (k : string) :
  In k (ObjectStore.keys (ObjectStore.put o rs)) <-> k = _id o \/ In k (ObjectStore.keys rs).
Proof.
  unfold ObjectStore.keys. induction rs as [|x rs IH]; cbn [ObjectStore.put map In].
  - intuition.
  - destruct (String.compare (_id o) (_id x)) eqn:Hcmp; cbn [map In].
    + apply String.compare_eq_iff in Hcmp. rewrite <- Hcmp. intuition.
    + intuition.
    + rewrite IH. intuition.
Qed.

Lemma delete_elem (k : string) (r : doc) (rs : list doc) :
  In r (ObjectStore.delete k rs) <-> In r rs /\ _id r <> k.
Proof.
  unfold ObjectStore.delete. rewrite List.filter_In, negb_true_iff.
  destruct (String.eqb_spec (_id r) k); intuition congruence.
Qed.

Lemma delete_all_elem (ks : list string) (r : doc) (rs : list doc) :
  In r (fold_left (fun rs k => ObjectStore.delete k rs) ks rs) -> In r rs /\ ~ In (_id r) ks.
Proof.
  revert rs. induction ks as [|k ks IH]; intros rs; cbn [fold_left In]; [ tauto | ].
  intros H. apply IH in H. destruct H as [H Hks]. apply delete_elem in H. intuition.
Qed.

Lemma put_all_keys (objects rs : list doc) (k : string) :
  In k (ObjectStore.keys (fold_left (fun rs o => ObjectStore.put o rs) objects rs))
  <-> In k (map _id objects) \/ In k (ObjectStore.keys rs).
Proof.
  revert rs. induction objects as [|o objects IH]; intros rs; cbn [fold_left map In].
  - tauto.
  - rewrite IH, put_keys. intuition.
Qed.

(** ** Opening the database and ensuring the store *)

Lemma contains_default_empty s : contains s (mkDatabase 0 ∅) = false.
Proof.
  unfold contains. apply bool_decide_eq_false. cbn. rewrite lookup_empty.
  intros [? ?]. discriminate.
Qed.

Lemma contains_insert s v m : contains s (mkDatabase v (<[s := []]> m)) = true.
Proof. unfold contains. apply bool_decide_eq_true. cbn. rewrite lookup_insert_eq. eauto. Qed.

Lemma invalid_next_version (v : N) :
  invalid_version (Some (v + 1)%N) = (max_version <=? v)%N.
Proof.
  unfold invalid_version.
  destruct (N.eqb_spec (v + 1) 0) as [H|_]; [ lia | ].
  destruct (N.ltb_spec max_version (v + 1)), (N.leb_spec max_version v);
    cbn [orb]; try reflexivity; lia.
Qed.

Lemma handlers_run (l : list string) (w : world) :
  fold_left (fun w n => onversionchange n w) l w
  = mkWorld (indexedDB w) (trace w ++ map EvClose l) (connections w).
Proof.
  revert w. induction l as [|n l IH]; intros w; cbn [fold_left map].
  - rewrite app_nil_r. destruct w; reflexivity.
  - rewrite IH. unfold onversionchange, emit. cbn [indexedDB trace connections].
    rewrite <- List.app_assoc. reflexivity.
Qed.

(** The handles on [n] are closed, one after the other, and nothing else
    happens. *)
Lemma versionchange_closes (n : string) (w : world) :
  versionchange n w
  = mkWorld (indexedDB w)
            (trace w ++ map EvClose (List.filter (String.eqb n) (connections w)))
            (List.filter (fun m => negb (String.eqb n m)) (connections w)).
Proof. unfold versionchange. cbn zeta. rewrite handlers_run. reflexivity. Qed.

Lemma versionchange_start (n : string) (w : world) :
  connections w = [] -> versionchange n w = w.
Proof.
  intros H. rewrite versionchange_closes, H. cbn [List.filter map].
  rewrite app_nil_r. destruct w; cbn in *; subst; reflexivity.
Qed.

Section Opening.

Variable env : environment.

Lemma indexedDB_open_current (n : string) h (w : world) (d : database) :
  open_fails env n None = false -> indexedDB w !! n = Some d ->
  indexedDB_open env n None h w = (emit (EvOpen n None) w, OpenSuccess d).
Proof.
  intros Hok Hd. unfold indexedDB_open. cbn [emit indexedDB invalid_version].
  rewrite Hok, Hd.
  cbn [default from_option id]. rewrite N.ltb_irrefl. reflexivity.
Qed.

Lemma indexedDB_open_upgrade (n : string) (req : option N) (new : N) h (w : world) :
  invalid_version req = false ->
  open_fails env n req = false ->
  new = match req, indexedDB w !! n with
        | Some v, _ => v
        | None, Some d => version d
        | None, None => 1%N
        end ->
  let old := default (mkDatabase 0 ∅) (indexedDB w !! n) in
  (version old < new)%N ->
  indexedDB_open env n req h w
  = let '(d, w1) := h (mkDatabase new (objectStores old))
                      (emit (EvUpgradeNeeded n (version old) new)
                            (versionchange n (emit (EvOpen n req) w))) in
    (mkWorld (<[n := d]> (indexedDB w1)) (trace w1) (connections w1), OpenSuccess d).
Proof.
  intros Hv Hok Hnew old Hlt. unfold indexedDB_open. cbn [emit indexedDB].
  rewrite Hv, Hok. fold old. rewrite <- Hnew.
  replace (new <? version old)%N with false by (symmetry; apply N.ltb_ge; lia).
  replace (version old <? new)%N with true by (symmetry; apply N.ltb_lt; lia).
  reflexivity.
Qed.

Lemma onupgradeneeded_creates (n s : string) (d : database) (w : world) :
  contains s d = false ->
  onupgradeneeded n s d w
  = (mkDatabase (version d) (<[s := []]> (objectStores d)), emit (EvCreateObjectStore n s) w).
Proof. intros Hc. unfold onupgradeneeded. rewrite Hc. reflexivity. Qed.

Lemma indexedDB_open_error n v h w :
  open_fails env n v = true -> invalid_version v = false ->
  indexedDB_open env n v h w = (emit (EvOpen n v) w, OpenError).
Proof.
  intros Hf Hv. unfold indexedDB_open. rewrite Hv, Hf. reflexivity.
Qed.

Lemma indexedDB_open_throws n v h w :
  invalid_version v = true ->
  indexedDB_open env n v h w
  = (emit (EvUncaught "TypeError") (emit (EvOpen n v) w), OpenThrew).
Proof. intros Hv. unfold indexedDB_open. rewrite Hv. reflexivity. Qed.

(** The store was created in the upgrade, the handle is handed out. *)
Lemma openDbEnsureStore_created (fuel : nat) (n s : string) (req : option N) (new : N)
    (w : world) :
  invalid_version req = false ->
  open_fails env n req = false ->
  new = match req, indexedDB w !! n with
        | Some v, _ => v
        | None, Some d => version d
        | None, None => 1%N
        end ->
  let old := default (mkDatabase 0 ∅) (indexedDB w !! n) in
  (version old < new)%N ->
  contains s old = false ->
  let d := mkDatabase new (<[s := []]> (objectStores old)) in
  openDbEnsureStore env (S fuel) n req s w
  = (mkWorld (<[n := d]> (indexedDB w))
             (((trace w ++ [EvOpen n req])
               ++ map EvClose (List.filter (String.eqb n) (connections w)))
              ++ [EvUpgradeNeeded n (version old) new; EvCreateObjectStore n s])
             (n :: List.filter (fun m => negb (String.eqb n m)) (connections w)),
     Some (inr d)).
Proof.
  intros Hv Hok Hnew old Hlt Hc d. cbn [openDbEnsureStore].
  rewrite (indexedDB_open_upgrade n req new _ w Hv Hok Hnew Hlt). fold old.
  rewrite onupgradeneeded_creates by exact Hc.
  cbn [version objectStores]. rewrite contains_insert. cbn [negb].
  rewrite versionchange_closes. unfold keep_open, emit.
  cbn [indexedDB trace connections]. rewrite <- !List.app_assoc. reflexivity.
Qed.

(** The second opening, at the next version, of a database that lacks the
    store. *)
Lemma openDbEnsureStore_reopened (fuel : nat) (n s : string) (w : world) (d0 : database) :
  indexedDB w !! n = Some d0 -> contains s d0 = false ->
  (version d0 < max_version)%N ->
  open_fails env n (Some (version d0 + 1)%N) = false ->
  let d := mkDatabase (version d0 + 1) (<[s := []]> (objectStores d0)) in
  openDbEnsureStore env (S fuel) n (Some (version d0 + 1)%N) s w
  = (mkWorld (<[n := d]> (indexedDB w))
             (((trace w ++ [EvOpen n (Some (version d0 + 1)%N)])
               ++ map EvClose (List.filter (String.eqb n) (connections w)))
              ++ [EvUpgradeNeeded n (version d0) (version d0 + 1); EvCreateObjectStore n s])
             (n :: List.filter (fun m => negb (String.eqb n m)) (connections w)),
     Some (inr d)).
Proof.
  intros Hd0 Hc Hmax Hok d.
  pose proof (openDbEnsureStore_created fuel n s (Some (version d0 + 1)%N)
                (version d0 + 1)%N w) as H.
  rewrite Hd0 in H. cbn [default from_option id] in H.
  apply H; auto; try lia.
  all: rewrite invalid_next_version; apply N.leb_gt; exact Hmax.
Qed.

(** The first opening of a database that does not exist. *)
Lemma openDbEnsureStore_fresh (fuel : nat) (n s : string) (w : world) :
  indexedDB w !! n = None -> open_fails env n None = false ->
  let d := mkDatabase 1 (<[s := []]> ∅) in
  openDbEnsureStore env (S fuel) n None s w
  = (mkWorld (<[n := d]> (indexedDB w))
             (((trace w ++ [EvOpen n None])
               ++ map EvClose (List.filter (String.eqb n) (connections w)))
              ++ [EvUpgradeNeeded n 0 1; EvCreateObjectStore n s])
             (n :: List.filter (fun m => negb (String.eqb n m)) (connections w)),
     Some (inr d)).
Proof.
  intros Hd0 Hok d.
  pose proof (openDbEnsureStore_created fuel n s None 1%N w) as H.
  rewrite Hd0 in H. cbn [default from_option id version objectStores] in H.
  apply H; auto using contains_default_empty; lia.
Qed.


End Opening.

(** On an engine that lets the database open, the store is ensured, unless
    it is missing at the last version there is. *)
Lemma openDbEnsureStore_ensures_store (env : environment) (dbName storeName : string)
    (idb : gmap string database) :
  (forall v, open_fails env dbName v = false) ->
  let old := default (mkDatabase 0 ∅) (idb !! dbName) in
  contains storeName old = true \/ (version old < max_version)%N ->
  exists w d,
    openDbEnsureStore env open_depth dbName None storeName (start idb) = (w, Some (inr d))
    /\ contains storeName d = true
    /\ indexedDB w !! dbName = Some d
    /\ if contains storeName old
       then indexedDB w = idb /\ upgrades (trace w) = 0%nat /\ d = old
       else indexedDB w = <[dbName := d]> idb /\ upgrades (trace w) = 1%nat
            /\ d = mkDatabase (version old + 1) (<[storeName := []]> (objectStores old)).
Proof.
  intros Hok old Hmax. unfold open_depth.
  destruct (idb !! dbName) as [d0|] eqn:Hd0; subst old; cbn [default from_option id] in *.
  - cbn [openDbEnsureStore].
    rewrite (indexedDB_open_current env dbName _ (start idb) d0) by auto.
    destruct (contains storeName d0) eqn:Hc; cbn [negb].
    + eexists _, d0. repeat split; auto.
    + destruct Hmax as [Hmax|Hmax]; [ discriminate Hmax | ].
      pose proof (openDbEnsureStore_reopened env 0 dbName storeName
                    (emit (EvClose dbName) (emit (EvOpen dbName None) (start idb))) d0
                    Hd0 Hc Hmax (Hok _)) as H.
      cbn zeta in H. cbn [openDbEnsureStore] in H. rewrite H.
      eexists _, _. split; [reflexivity|]. cbn [indexedDB trace connections emit start].
      split; [ apply contains_insert | ]. split; [ apply lookup_insert_eq | ].
      repeat split; reflexivity.
  - pose proof (contains_default_empty storeName) as He. rewrite He.
    rewrite (openDbEnsureStore_fresh env 1 dbName storeName (start idb) Hd0 (Hok _)).
    eexists _, _. split; [reflexivity|]. cbn [indexedDB trace connections start].
    split; [ apply contains_insert | ]. split; [ apply lookup_insert_eq | ].
    repeat split; reflexivity.
Qed.

Section Frame.

Variable env : environment.

Lemma emit_prefix_trace pre e w : emit e (prefix_trace pre w) = prefix_trace pre (emit e w).
Proof. unfold emit, prefix_trace. cbn. rewrite app_assoc. reflexivity. Qed.

Lemma onupgradeneeded_prefix_trace pre n s d w :
  onupgradeneeded n s d (prefix_trace pre w)
  = (fst (onupgradeneeded n s d w), prefix_trace pre (snd (onupgradeneeded n s d w))).
Proof.
  unfold onupgradeneeded. destruct (negb (contains s d)); cbn [fst snd];
    rewrite ?emit_prefix_trace; reflexivity.
Qed.

Lemma versionchange_prefix_trace pre n w :
  versionchange n (prefix_trace pre w) = prefix_trace pre (versionchange n w).
Proof.
  rewrite !versionchange_closes. unfold prefix_trace. cbn [indexedDB trace connections].
  rewrite <- List.app_assoc. reflexivity.
Qed.

Lemma indexedDB_open_prefix_trace pre n v s w :
  indexedDB_open env n v (onupgradeneeded n s) (prefix_trace pre w)
  = (prefix_trace pre (fst (indexedDB_open env n v (onupgradeneeded n s) w)),
     snd (indexedDB_open env n v (onupgradeneeded n s) w)).
Proof.
  unfold indexedDB_open. rewrite !emit_prefix_trace.
  destruct (invalid_version v); [ reflexivity | ].
  destruct (open_fails env n v); [ reflexivity | ].
  change (indexedDB (prefix_trace pre (emit (EvOpen n v) w))) with (indexedDB w).
  change (indexedDB (emit (EvOpen n v) w)) with (indexedDB w).
  match goal with |- context [(?a <? ?b)%N] => destruct (a <? b)%N end; [ reflexivity | ].
  match goal with |- context [(?a <? ?b)%N] => destruct (a <? b)%N end; [ | reflexivity ].
  rewrite versionchange_prefix_trace, emit_prefix_trace, onupgradeneeded_prefix_trace.
  destruct (onupgradeneeded n s _ _) as [d1 w1]. reflexivity.
Qed.

Lemma openDbEnsureStore_prefix_trace pre fuel n v s w :
  openDbEnsureStore env fuel n v s (prefix_trace pre w)
  = (prefix_trace pre (fst (openDbEnsureStore env fuel n v s w)),
     snd (openDbEnsureStore env fuel n v s w)).
Proof.
  revert v w. induction fuel as [|fuel IH]; intros v w; [ reflexivity | ].
  cbn [openDbEnsureStore]. rewrite indexedDB_open_prefix_trace.
  destruct (indexedDB_open env n v (onupgradeneeded n s) w) as [w1 [d| |]]; cbn [fst snd];
    try reflexivity.
  destruct (negb (contains s d)); [ | reflexivity ].
  rewrite emit_prefix_trace. apply IH.
Qed.

End Frame.

Section OpeningTrace.

Variable env : environment.

Lemma closes_opening (l : list string) :
  Forall (fun e => is_opening e = true) (map EvClose l).
Proof. induction l; constructor; auto. Qed.

Lemma indexedDB_open_trace n v s w :
  exists evs,
    trace (fst (indexedDB_open env n v (onupgradeneeded n s) w)) = (trace w ++ evs)%list
    /\ Forall (fun e => is_opening e = true) evs.
Proof.
  unfold indexedDB_open. cbn zeta.
  destruct (invalid_version v).
  { exists [EvOpen n v; EvUncaught "TypeError"]. cbn [fst emit trace].
    rewrite <- List.app_assoc. split; [ reflexivity | repeat constructor ]. }
  destruct (open_fails env n v).
  { exists [EvOpen n v]. split; [ reflexivity | repeat constructor ]. }
  match goal with |- context [(?a <? ?b)%N] => destruct (a <? b)%N end.
  { exists [EvOpen n v]. split; [ reflexivity | repeat constructor ]. }
  match goal with |- context [(?a <? ?b)%N] => destruct (a <? b)%N end.
  2:{ exists [EvOpen n v]. split; [ reflexivity | repeat constructor ]. }
  rewrite versionchange_closes. unfold onupgradeneeded.
  set (cl := map EvClose (List.filter (String.eqb n) (connections (emit (EvOpen n v) w)))).
  assert (Hcl : Forall (fun e => is_opening e = true) cl) by apply closes_opening.
  match goal with |- context [if ?b then _ else _] => destruct b end;
    cbn [fst emit trace indexedDB connections].
  - match goal with
    | |- context [EvUpgradeNeeded n ?a ?b] =>
        exists ([EvOpen n v] ++ cl ++ [EvUpgradeNeeded n a b; EvCreateObjectStore n s])%list
    end.
    split; [ rewrite <- !List.app_assoc; reflexivity | ].
    apply Forall_app. split; [ repeat constructor | ].
    apply Forall_app. split; [ exact Hcl | repeat constructor ].
  - match goal with
    | |- context [EvUpgradeNeeded n ?a ?b] =>
        exists ([EvOpen n v] ++ cl ++ [EvUpgradeNeeded n a b])%list
    end.
    split; [ rewrite <- !List.app_assoc; reflexivity | ].
    apply Forall_app. split; [ repeat constructor | ].
    apply Forall_app. split; [ exact Hcl | repeat constructor ].
Qed.

Lemma openDbEnsureStore_trace fuel n v s w :
  exists evs,
    trace (fst (openDbEnsureStore env fuel n v s w)) = (trace w ++ evs)%list
    /\ Forall (fun e => is_opening e = true) evs.
Proof.
  revert v w. induction fuel as [|fuel IH]; intros v w.
  - exists []. cbn. rewrite app_nil_r. auto.
  - cbn [openDbEnsureStore].
    destruct (indexedDB_open_trace n v s w) as (evs & Hevs & Hall).
    destruct (indexedDB_open env n v (onupgradeneeded n s) w) as [w1 [d| |]]; cbn [fst] in *;
      try solve [exists evs; auto].
    destruct (negb (contains s d)); [ | exists evs; auto ].
    destruct (IH (Some (version d + 1)%N) (emit (EvClose n) w1)) as (evs' & Hevs' & Hall').
    exists (evs ++ EvClose n :: evs')%list. split.
    + rewrite Hevs'. cbn [emit trace]. rewrite Hevs, <- !app_assoc. reflexivity.
    + apply Forall_app. split; [ exact Hall | constructor; [ reflexivity | exact Hall' ] ].
Qed.

Lemma openDbEnsureStore_error fuel n v s w w' err :
  openDbEnsureStore env fuel n v s w = (w', Some (inl err)) -> err = "Error opening IndexedDB".
Proof.
  revert v w. induction fuel as [|fuel IH]; intros v w; cbn [openDbEnsureStore]; [ discriminate | ].
  destruct (indexedDB_open env n v (onupgradeneeded n s) w) as [w1 [d| |]].
  - destruct (negb (contains s d)); [ apply IH | discriminate ].
  - intros [= _ <-]. reflexivity.
  - discriminate.
Qed.

Lemma openTransaction_error m self w w' err :
  openTransaction env m self w = (w', Some (inl err)) ->
  openDbEnsureStore env open_depth (dbName self) None (storeName self) w = (w', Some (inl err)).
Proof.
  unfold openTransaction.
  destruct (openDbEnsureStore env open_depth (dbName self) None (storeName self) w)
    as [w1 [[e|d]|]]; try discriminate.
  - intros [= <- <-]. reflexivity.
  - destruct (objectStores d !! storeName self); discriminate.
Qed.

Lemma openTransaction_error_prefix_trace m pre self w w' err :
  openTransaction env m self w = (w', Some (inl err)) ->
  openTransaction env m self (prefix_trace pre w) = (prefix_trace pre w', Some (inl err)).
Proof.
  intros H. apply openTransaction_error in H. unfold openTransaction.
  rewrite openDbEnsureStore_prefix_trace, H. reflexivity.
Qed.

(** An opening that the engine fails, from the first call on. *)
Lemma openDbEnsureStore_fails (n s : string) (idb : gmap string database) :
  open_fails env n None = true
  \/ (exists d0,
        idb !! n = Some d0 /\ contains s d0 = false /\ (version d0 < max_version)%N
        /\ open_fails env n (Some (version d0 + 1)%N) = true) ->
  exists evs,
    openDbEnsureStore env open_depth n None s (start idb)
    = (mkWorld idb evs [], Some (inl "Error opening IndexedDB"))
    /\ Forall (fun e => touches_records e = false /\ is_callback e = false) evs.
Proof.
  intros Hfail. unfold open_depth. cbn [openDbEnsureStore].
  destruct (open_fails env n None) eqn:Hf.
  { rewrite indexedDB_open_error by auto. exists [EvOpen n None].
    split; [ reflexivity | repeat constructor ]. }
  destruct Hfail as [Hfail|(d0 & Hd0 & Hc & Hmax & Hf')]; [ discriminate Hfail | ].
  rewrite (indexedDB_open_current env n _ (start idb) d0) by auto.
  rewrite Hc. cbn [negb].
  rewrite indexedDB_open_error
    by (auto; rewrite invalid_next_version; apply N.leb_gt; exact Hmax).
  exists [EvOpen n None; EvClose n; EvOpen n (Some (version d0 + 1)%N)].
  split; [ reflexivity | repeat constructor ].
Qed.

(** C8.  If the engine fails an opening of the database (the first one, or,
    the store being missing, the second one at the next version), each of
    the three operations calls the caller's callback with the connection
    error and does nothing else: what happened before that call is the
    opening alone, no transaction, cursor, put or delete and no other call
    of the callback; the engine is as it was and no handle is left open
    ([persistCachedDatabase] and [loadDatabase] when they get as far as
    opening). *)
Theorem open_failure_surfaces (self : Persistence) (idb : gmap string database) :
  opening_fails env self idb ->
  exists evs,
    Forall (fun e => touches_records e = false /\ is_callback e = false) evs
    /\ (forall objects,
          persistNewState env self objects (start idb)
          = mkWorld idb (evs ++ [EvCallback (Some "Error opening IndexedDB")]) [])
    /\ (inMemoryOnly self = false ->
        persistCachedDatabase env self (start idb)
        = mkWorld idb (evs ++ [EvCallback (Some "Error opening IndexedDB")]) [])
    /\ (window_inMemoryOnly env = false ->
        loadDatabase env self (start idb)
        = mkWorld idb (EvResetIndexes None
                       :: evs ++ [EvCallback (Some "Error opening IndexedDB")]) []).
Proof.
  intros Hfail.
  destruct (openDbEnsureStore_fails (dbName self) (storeName self) idb Hfail)
    as (evs & Hopen & Hall).
  assert (Ht : openWriteTransaction env self (start idb)
               = (mkWorld idb evs [], Some (inl "Error opening IndexedDB"))).
  { unfold openWriteTransaction, openTransaction. rewrite Hopen. reflexivity. }
  exists evs. split; [ exact Hall | ]. split; [ | split ].
  - intros objects. unfold persistNewState. rewrite Ht. reflexivity.
  - intros Hmem. unfold persistCachedDatabase. rewrite Hmem, Ht. reflexivity.
  - intros Hwin. unfold loadDatabase. rewrite Hwin.
    change (emit (EvResetIndexes None) (start idb))
      with (prefix_trace [EvResetIndexes None] (start idb)).
    unfold openWriteTransaction in *.
    rewrite (openTransaction_error_prefix_trace _ _ _ _ _ _ Ht). reflexivity.
Qed.

End OpeningTrace.

(** The store ["docs"] is missing and the engine refuses the second
    opening, at version 2. *)
Lemma open_failure_surfaces_witness :
  let env := mkEnv (fun _ v => bool_decide (v = Some 2%N)) (fun _ => false) (fun _ => false)
                   RequestErrorAborts "DataError" false in
  let self := new_Persistence (datastore [plain "a" []]) in
  let idb : gmap string database := {[ "db" := mkDatabase 1 {[ "other" := [plain "z" []] ]} ]} in
  exists evs,
    Forall (fun e => touches_records e = false /\ is_callback e = false) evs
    /\ (forall objects,
          persistNewState env self objects (start idb)
          = mkWorld idb (evs ++ [EvCallback (Some "Error opening IndexedDB")]) [])
    /\ (inMemoryOnly self = false ->
        persistCachedDatabase env self (start idb)
        = mkWorld idb (evs ++ [EvCallback (Some "Error opening IndexedDB")]) [])
    /\ (window_inMemoryOnly env = false ->
        loadDatabase env self (start idb)
        = mkWorld idb (EvResetIndexes None
                       :: evs ++ [EvCallback (Some "Error opening IndexedDB")]) []).
Proof.
  apply (open_failure_surfaces
           (mkEnv (fun _ v => bool_decide (v = Some 2%N)) (fun _ => false) (fun _ => false)
                  RequestErrorAborts "DataError" false)
           (new_Persistence (datastore [plain "a" []]))).
  right. exists (mkDatabase 1 {[ "other" := [plain "z" []] ]}).
  repeat split; vm_compute; reflexivity.
Defined.

(** ** Lists of events, series and messages *)

Lemma upgrades_app (l1 l2 : list event) : upgrades (l1 ++ l2) = (upgrades l1 + upgrades l2)%nat.
Proof. unfold upgrades. rewrite List.filter_app, length_app. reflexivity. Qed.

Lemma upgrades_none (l : list event) :
  Forall (fun e => is_upgrade e = false) l -> upgrades l = 0%nat.
Proof.
  induction 1 as [|e l He _ IH]; [ reflexivity | ].
  unfold upgrades in *. cbn [List.filter]. rewrite He. exact IH.
Qed.

Lemma eachSeries_app {A S : Type} (f : A -> S -> S * step) (pre rest : list A) (s s' : S) :
  eachSeries pre f s = (s', Finished None) ->
  eachSeries (pre ++ rest) f s = eachSeries rest f s'.
Proof.
  revert s. induction pre as [|x pre IH]; intros s; cbn [eachSeries app].
  - intros [= ->]. reflexivity.
  - destruct (f x s) as [s1 [|err|]]; [ apply IH | discriminate | discriminate ].
Qed.

Lemma requests_app (l1 l2 : list event) : requests (l1 ++ l2) = (requests l1 ++ requests l2)%list.
Proof. unfold requests. apply List.filter_app. Qed.

Lemma requests_map_request_of (l : list doc) : requests (map request_of l) = map request_of l.
Proof.
  induction l as [|o l IH]; [ reflexivity | ].
  cbn [map]. unfold requests in *. cbn [List.filter].
  replace (is_request (request_of o)) with true
    by (unfold request_of; destruct (deleted o); reflexivity).
  rewrite IH. reflexivity.
Qed.

Lemma requests_none (l : list event) :
  Forall (fun e => is_request e = false) l -> requests l = [].
Proof.
  induction 1 as [|e l He _ IH]; [ reflexivity | ].
  unfold requests in *. cbn [List.filter]. rewrite He. exact IH.
Qed.

Lemma transaction_error_not_delete_error (x k : string) :
  "Error persisting cached data: " ++ x <> delete_error k
  /\ "Error persisting cached data:" ++ x <> delete_error k.
Proof. unfold delete_error. cbn [append]. split; discriminate. Qed.

Lemma put_error_inj (k k' : string) : put_error k = put_error k' -> k = k'.
Proof. unfold put_error. cbn [append]. intros H. injection H as H. exact H. Qed.

Lemma delete_error_inj (k k' : string) : delete_error k = delete_error k' -> k = k'.
Proof. unfold delete_error. cbn [append]. intros H. injection H as H. exact H. Qed.

(** ** What a transaction adds to its log *)

Section Transactions.

Variable env : environment.

Lemma extends_refl t : extends t t [].
Proof. unfold extends. rewrite app_nil_r. auto. Qed.

Lemma extends_trans t1 t2 t3 evs evs' :
  extends t1 t2 evs -> extends t2 t3 evs' -> extends t1 t3 (evs ++ evs').
Proof.
  intros (Hl & He & Hc) (Hl' & He' & Hc'). unfold extends.
  rewrite Hl', Hl, He', He, Hc', Hc, <- List.app_assoc. auto.
Qed.

Lemma from_handler_extends t t' evs e : extends t t' evs -> from_handler t' e -> from_handler t e.
Proof. intros (_ & He & _) [x Hx]. exists x. rewrite <- He. exact Hx. Qed.

Lemma note_extends es t : extends t (note es t) es.
Proof. unfold extends, note. cbn. auto. Qed.

Lemma deliver_extends t :
  exists evs, extends t (deliver env t) evs /\ Forall (from_handler t) evs.
Proof.
  unfold deliver. destruct (bubbling t).
  - exists (onerror t (error t)). split; [ unfold extends; cbn; auto | ].
    apply Forall_forall. intros e He. exists (error t). apply list_elem_of_In. exact He.
  - exists []. split; [ apply extends_refl | constructor ].
Qed.

Lemma store_put_extends o t :
  exists evs,
    extends t (fst (store_put env o t)) (evs ++ [EvPut (_id o) (snd (store_put env o t))])
    /\ Forall (from_handler t) evs.
Proof.
  destruct (deliver_extends t) as (evs & (Hl & He & Hc) & Hall).
  exists evs. split; [ | exact Hall ].
  unfold store_put.
  destruct (bool_decide (is_Some (error (deliver env t))) || put_fails env (_id o));
    unfold extends, fail_request; cbn; rewrite Hl, He, Hc, <- List.app_assoc; auto.
Qed.

Lemma store_delete_extends k t :
  exists evs,
    extends t (fst (store_delete env k t)) (evs ++ [EvDelete k (snd (store_delete env k t))])
    /\ Forall (from_handler t) evs.
Proof.
  destruct (deliver_extends t) as (evs & (Hl & He & Hc) & Hall).
  exists evs. split; [ | exact Hall ].
  unfold store_delete.
  destruct (bool_decide (is_Some (error (deliver env t))) || delete_fails env k);
    unfold extends, fail_request; cbn; rewrite Hl, He, Hc, <- List.app_assoc; auto.
Qed.

Lemma settle_extends t :
  exists evs,
    extends t (settle env t) evs
    /\ Forall (fun e => from_handler t e \/ In e (oncomplete t)) evs.
Proof.
  destruct (deliver_extends t) as (evs & Hext & Hall).
  unfold settle. destruct (error (deliver env t)).
  - exists evs. split; [ exact Hext | ].
    eapply Forall_impl; [ exact Hall | ]. auto.
  - exists (evs ++ oncomplete (deliver env t))%list. split.
    + eapply extends_trans; [ exact Hext | apply note_extends ].
    + apply Forall_app. split.
      * eapply Forall_impl; [ exact Hall | ]. auto.
      * destruct Hext as (_ & _ & ->). apply Forall_forall. intros e He. right.
        apply list_elem_of_In. exact He.
Qed.

Lemma finish_trace n s d w t : trace (finish env n s d w t) = log (settle env t).
Proof. unfold finish. destruct (error (settle env t)); reflexivity. Qed.

Lemma in_snoc_request (e : event) (evs : list event) (r : event) (t : transaction) :
  (forall e', from_handler t e' -> is_callback e' = true) ->
  Forall (from_handler t) evs -> is_callback e = false ->
  In e (evs ++ [r]) -> e = r.
Proof.
  intros Hcb Hall He Hin. apply in_app_iff in Hin. destruct Hin as [Hin|[Hin|[]]]; [ | auto ].
  rewrite Forall_forall in Hall. apply list_elem_of_In, Hall, Hcb in Hin. congruence.
Qed.

(** The shape of the three series. *)

Lemma put_series_shape objects t keys :
  (forall e, from_handler t e -> is_callback e = true) ->
  exists evs,
    extends t (fst (fst (eachSeries objects (put_iterator env) (t, keys)))) evs
    /\ Forall (fun e => from_handler t e \/ is_request e = true) evs
    /\ snd (eachSeries objects (put_iterator env) (t, keys)) <> Unfinished
    /\ (forall e, snd (eachSeries objects (put_iterator env) (t, keys)) = Finished (Some e) ->
         exists k, e = put_error k)
    /\ (forall k, In (EvDelete k false) evs -> False)
    /\ forall k, In (EvPut k false) evs ->
         snd (eachSeries objects (put_iterator env) (t, keys)) = Finished (Some (put_error k)).
Proof.
  revert t keys. induction objects as [|o objects IH]; intros t keys Hcb.
  - exists []. split; [ apply extends_refl | ].
    split; [ constructor | ]. split; [ discriminate | ]. split; [ discriminate | ].
    split; intros k [].
  - cbn [eachSeries]. unfold put_iterator at 1 3 5 7.
    destruct (store_put_extends o t) as (evs & Hext & Hall).
    destruct (store_put env o t) as [t1 ok]. cbn [fst snd] in Hext.
    assert (Hall' : Forall (fun e => from_handler t e \/ is_request e = true)
                      (evs ++ [EvPut (_id o) ok])).
    { apply Forall_app. split; [ eapply Forall_impl; [ exact Hall | auto ] | ].
      constructor; [ right; reflexivity | constructor ]. }
    destruct ok.
    + destruct (IH t1 (putReq_onsuccess o keys))
        as (evs' & Hext' & Hall'' & Hr & Herr & Hnd & Hput).
      { intros e He. apply Hcb. eapply from_handler_extends; eauto. }
      exists ((evs ++ [EvPut (_id o) true]) ++ evs')%list.
      split; [ eapply extends_trans; eauto | ].
      split; [ | split; [ exact Hr | split; [ exact Herr | split ] ] ].
      * apply Forall_app. split; [ exact Hall' | ].
        eapply Forall_impl; [ exact Hall'' | ]. intros e [He|He]; [ left | right; exact He ].
        eapply from_handler_extends; eauto.
      * intros k Hin. apply in_app_iff in Hin. destruct Hin as [Hin|Hin]; [ | eauto ].
        apply (in_snoc_request (EvDelete k false) _ _ t Hcb Hall eq_refl) in Hin.
        discriminate Hin.
      * intros k Hin. apply in_app_iff in Hin. destruct Hin as [Hin|Hin]; [ | eauto ].
        apply (in_snoc_request (EvPut k false) _ _ t Hcb Hall eq_refl) in Hin.
        discriminate Hin.
    + cbn [fst snd]. exists (evs ++ [EvPut (_id o) false])%list.
      split; [ exact Hext | ]. split; [ exact Hall' | ]. split; [ discriminate | ].
      split; [ intros e [= <-]; eauto | ]. split.
      * intros k Hin.
        apply (in_snoc_request (EvDelete k false) _ _ t Hcb Hall eq_refl) in Hin.
        discriminate Hin.
      * intros k Hin.
        apply (in_snoc_request (EvPut k false) _ _ t Hcb Hall eq_refl) in Hin.
        injection Hin as ->. reflexivity.
Qed.

Lemma delete_series_shape keys t :
  (forall e, from_handler t e -> is_callback e = true) ->
  exists evs,
    extends t (fst (eachSeries keys (delete_iterator env) t)) evs
    /\ Forall (fun e => from_handler t e \/ is_request e = true) evs
    /\ (forall e, snd (eachSeries keys (delete_iterator env) t) = Finished (Some e) ->
         exists k, e = delete_error k)
    /\ (forall k, In (EvPut k false) evs -> False)
    /\ forall k, In (EvDelete k false) evs ->
         snd (eachSeries keys (delete_iterator env) t) = Finished (Some (delete_error k)).
Proof.
  revert t. induction keys as [|k0 keys IH]; intros t Hcb.
  - exists []. split; [ apply extends_refl | ]. split; [ constructor | ].
    split; [ discriminate | ]. split; intros k [].
  - cbn [eachSeries]. unfold delete_iterator at 1 3 5.
    destruct (store_delete_extends k0 t) as (evs & Hext & Hall).
    destruct (store_delete env k0 t) as [t1 ok]. cbn [fst snd] in Hext.
    assert (Hall' : Forall (fun e => from_handler t e \/ is_request e = true)
                      (evs ++ [EvDelete k0 ok])).
    { apply Forall_app. split; [ eapply Forall_impl; [ exact Hall | auto ] | ].
      constructor; [ right; reflexivity | constructor ]. }
    destruct ok.
    + destruct (IH t1) as (evs' & Hext' & Hall'' & Herr & Hnp & Hdel).
      { intros e He. apply Hcb. eapply from_handler_extends; eauto. }
      exists ((evs ++ [EvDelete k0 true]) ++ evs')%list.
      split; [ eapply extends_trans; eauto | ]. split; [ | split; [ exact Herr | split ] ].
      * apply Forall_app. split; [ exact Hall' | ].
        eapply Forall_impl; [ exact Hall'' | ]. intros e [He|He]; [ left | right; exact He ].
        eapply from_handler_extends; eauto.
      * intros k Hin. apply in_app_iff in Hin. destruct Hin as [Hin|Hin]; [ | eauto ].
        apply (in_snoc_request (EvPut k false) _ _ t Hcb Hall eq_refl) in Hin.
        discriminate Hin.
      * intros k Hin. apply in_app_iff in Hin. destruct Hin as [Hin|Hin]; [ | eauto ].
        apply (in_snoc_request (EvDelete k false) _ _ t Hcb Hall eq_refl) in Hin.
        discriminate Hin.
    + cbn [fst snd]. exists (evs ++ [EvDelete k0 false])%list.
      split; [ exact Hext | ]. split; [ exact Hall' | ].
      split; [ intros e [= <-]; eauto | ]. split.
      * intros k Hin.
        apply (in_snoc_request (EvPut k false) _ _ t Hcb Hall eq_refl) in Hin.
        discriminate Hin.
      * intros k Hin.
        apply (in_snoc_request (EvDelete k false) _ _ t Hcb Hall eq_refl) in Hin.
        injection Hin as ->. reflexivity.
Qed.

Lemma cursor_done_shape objects t keys :
  (forall e, from_handler t e -> is_callback e = true) ->
  exists evs,
    extends t (fst (cursor_done env objects t keys)) evs
    /\ Forall (compaction_event t) evs
    /\ (forall k, In (EvPut k false) evs -> In (EvCallback (Some (put_error k))) evs)
    /\ (forall k, In (EvDelete k false) evs -> In (EvConsoleError (delete_error k)) evs).
Proof.
  intros Hcb. unfold cursor_done.
  destruct (put_series_shape objects t keys Hcb)
    as (evs1 & Hext1 & Hall1 & Hr1 & Herr1 & Hnd1 & Hput1).
  destruct (eachSeries objects (put_iterator env) (t, keys)) as [[t1 keys1] [err1|]];
    cbn [fst snd] in *; [ | congruence ].
  set (t1' := match err1 with Some e => note [EvCallback (Some e)] t1 | None => t1 end).
  assert (H1 : exists evs1',
             extends t t1' (evs1 ++ evs1')
             /\ Forall (compaction_event t) evs1'
             /\ (forall k, In (EvPut k false) evs1 -> In (EvCallback (Some (put_error k))) evs1')
             /\ (forall k, In (EvPut k false) evs1' -> False)
             /\ (forall k, In (EvDelete k false) evs1' -> False)).
  { subst t1'. destruct err1 as [e1|].
    - exists [EvCallback (Some e1)].
      split; [ eapply extends_trans; [ exact Hext1 | apply note_extends ] | ].
      destruct (Herr1 e1 eq_refl) as [k1 Hk1]. subst e1.
      split; [ constructor; [ right; right; left; eauto | constructor ] | ].
      split; [ | split; intros k [H|[]]; discriminate H ].
      intros k Hin. apply Hput1 in Hin.
      assert (k1 = k) as -> by (apply put_error_inj; congruence). left. reflexivity.
    - exists []. rewrite app_nil_r. split; [ exact Hext1 | ]. split; [ constructor | ].
      split; [ | split; intros k [] ].
      intros k Hin. apply Hput1 in Hin. discriminate Hin. }
  destruct H1 as (evs1' & Hext1' & Hall1' & Hcb1 & Hnp1' & Hnd1').
  assert (Hcb' : forall e, from_handler t1' e -> is_callback e = true).
  { intros e He. apply Hcb. eapply from_handler_extends; eauto. }
  destruct (delete_series_shape keys1 t1' Hcb') as (evs2 & Hext2 & Hall2 & Herr2 & Hnp2 & Hdel2).
  destruct (eachSeries keys1 (delete_iterator env) t1') as [t2 r2]; cbn [fst snd] in *.
  assert (Hall2' : Forall (compaction_event t) evs2).
  { eapply Forall_impl; [ exact Hall2 | ]. intros e [He|He]; [ left | right; left; exact He ].
    eapply from_handler_extends; eauto. }
  assert (Hall12 : Forall (compaction_event t) (evs1 ++ evs1')).
  { apply Forall_app. split; [ | exact Hall1' ].
    eapply Forall_impl; [ exact Hall1 | ]. intros e [He|He]; [ left | right; left ]; exact He. }
  assert (H2 : exists evs2',
             extends t (fst (match r2 with
                             | Finished (Some e) => (note [EvConsoleError e] t2, keys1)
                             | _ => (t2, keys1)
                             end)) ((evs1 ++ evs1') ++ evs2 ++ evs2')
             /\ Forall (compaction_event t) evs2'
             /\ (forall k, In (EvDelete k false) evs2 -> In (EvConsoleError (delete_error k)) evs2')
             /\ (forall k, In (EvPut k false) evs2' -> False)
             /\ (forall k, In (EvDelete k false) evs2' -> False)).
  { destruct r2 as [[e2|]|]; cbn [fst].
    - exists [EvConsoleError e2].
      split; [ eapply extends_trans; [ exact Hext1' | ];
               eapply extends_trans; [ exact Hext2 | apply note_extends ] | ].
      destruct (Herr2 e2 eq_refl) as [k2 Hk2]. subst e2.
      split; [ constructor; [ right; right; right; eauto | constructor ] | ].
      split; [ | split; intros k [H|[]]; discriminate H ].
      intros k Hin. apply Hdel2 in Hin.
      assert (k2 = k) as -> by (apply delete_error_inj; congruence). left. reflexivity.
    - exists []. rewrite app_nil_r.
      split; [ eapply extends_trans; [ exact Hext1' | exact Hext2 ] | ].
      split; [ constructor | ]. split; [ | split; intros k [] ].
      intros k Hin. apply Hdel2 in Hin. discriminate Hin.
    - exists []. rewrite app_nil_r.
      split; [ eapply extends_trans; [ exact Hext1' | exact Hext2 ] | ].
      split; [ constructor | ]. split; [ | split; intros k [] ].
      intros k Hin. apply Hdel2 in Hin. discriminate Hin. }
  destruct H2 as (evs2' & Hext2' & Hall2'' & Hcon & Hnp2' & Hnd2').
  exists ((evs1 ++ evs1') ++ evs2 ++ evs2')%list. split; [ exact Hext2' | ]. split; [ | split ].
  - apply Forall_app. split; [ exact Hall12 | ]. apply Forall_app. split; assumption.
  - intros k Hin. rewrite !in_app_iff in Hin |- *.
    destruct Hin as [[Hin|Hin]|[Hin|Hin]]; [ | exfalso; eauto | exfalso; eauto | exfalso; eauto ].
    left. right. auto.
  - intros k Hin. rewrite !in_app_iff in Hin |- *.
    destruct Hin as [[Hin|Hin]|[Hin|Hin]]; [ exfalso; eauto | exfalso; eauto | | exfalso; eauto ].
    right. right. auto.
Qed.

Lemma persistNewState_series_shape objects t :
  (forall e, from_handler t e -> is_callback e = true) ->
  exists evs,
    extends t (fst (eachSeries objects (persistNewState_iterator env) t)) evs
    /\ Forall (fun e => from_handler t e \/ is_request e = true \/ e = reference_error) evs
    /\ forall k, In (EvDelete k false) evs ->
         snd (eachSeries objects (persistNewState_iterator env) t) = Unfinished
         /\ exists evs0, evs = (evs0 ++ [EvDelete k false; reference_error])%list.
Proof.
  revert t. induction objects as [|o objects IH]; intros t Hcb.
  - exists []. split; [ apply extends_refl | ]. split; [ constructor | intros k [] ].
  - cbn [eachSeries]. unfold persistNewState_iterator.
    destruct (deleted o).
    + destruct (store_delete_extends (_id o) t) as (evs & Hext & Hall).
      destruct (store_delete env (_id o) t) as [t1 ok]. cbn [fst snd] in Hext.
      assert (Hall' : Forall (fun e => from_handler t e \/ is_request e = true
                                       \/ e = reference_error)
                        (evs ++ [EvDelete (_id o) ok])).
      { apply Forall_app. split; [ eapply Forall_impl; [ exact Hall | auto ] | ].
        constructor; [ right; left; reflexivity | constructor ]. }
      destruct ok.
      * destruct (IH t1) as (evs' & Hext' & Hall'' & Hdel).
        { intros e He. apply Hcb. eapply from_handler_extends; eauto. }
        exists ((evs ++ [EvDelete (_id o) true]) ++ evs')%list. split; [ | split ].
        -- eapply extends_trans; eauto.
        -- apply Forall_app. split; [ exact Hall' | ].
           eapply Forall_impl; [ exact Hall'' | ]. intros e [He|He]; [ left | right; exact He ].
           eapply from_handler_extends; eauto.
        -- intros k Hin. apply in_app_iff in Hin. destruct Hin as [Hin|Hin].
           ++ apply (in_snoc_request (EvDelete k false) _ _ t Hcb Hall eq_refl) in Hin.
              discriminate Hin.
           ++ destruct (Hdel k Hin) as (Hr & evs0 & ->). split; [ exact Hr | ].
              exists ((evs ++ [EvDelete (_id o) true]) ++ evs0)%list.
              rewrite <- !List.app_assoc. reflexivity.
      * cbn [fst snd]. exists ((evs ++ [EvDelete (_id o) false]) ++ [reference_error])%list.
        split; [ | split ].
        -- eapply extends_trans; [ exact Hext | apply note_extends ].
        -- apply Forall_app. split; [ exact Hall' | ].
           constructor; [ right; right; reflexivity | constructor ].
        -- intros k Hin. split; [ reflexivity | ]. exists evs.
           rewrite <- List.app_assoc. cbn [app].
           apply in_app_iff in Hin. destruct Hin as [Hin|[Hin|[]]]; [ | discriminate Hin ].
           apply (in_snoc_request (EvDelete k false) _ _ t Hcb Hall eq_refl) in Hin.
           injection Hin as ->. reflexivity.
    + destruct (negb (indexCreated o) && negb (indexRemoved o)).
      * destruct (store_put_extends o t) as (evs & Hext & Hall).
        destruct (store_put env o t) as [t1 ok]. cbn [fst snd] in Hext.
        assert (Hall' : Forall (fun e => from_handler t e \/ is_request e = true
                                         \/ e = reference_error)
                          (evs ++ [EvPut (_id o) ok])).
        { apply Forall_app. split; [ eapply Forall_impl; [ exact Hall | auto ] | ].
          constructor; [ right; left; reflexivity | constructor ]. }
        destruct ok.
        -- destruct (IH t1) as (evs' & Hext' & Hall'' & Hdel).
           { intros e He. apply Hcb. eapply from_handler_extends; eauto. }
           exists ((evs ++ [EvPut (_id o) true]) ++ evs')%list. split; [ | split ].
           ++ eapply extends_trans; eauto.
           ++ apply Forall_app. split; [ exact Hall' | ].
              eapply Forall_impl; [ exact Hall'' | ]. intros e [He|He]; [ left | right; exact He ].
              eapply from_handler_extends; eauto.
           ++ intros k Hin. apply in_app_iff in Hin. destruct Hin as [Hin|Hin].
              ** apply (in_snoc_request (EvDelete k false) _ _ t Hcb Hall eq_refl) in Hin.
                 discriminate Hin.
              ** destruct (Hdel k Hin) as (Hr & evs0 & ->). split; [ exact Hr | ].
                 exists ((evs ++ [EvPut (_id o) true]) ++ evs0)%list.
                 rewrite <- !List.app_assoc. reflexivity.
        -- cbn [fst snd]. exists (evs ++ [EvPut (_id o) false])%list.
           split; [ exact Hext | ]. split; [ exact Hall' | ].
           intros k Hin.
           apply (in_snoc_request (EvDelete k false) _ _ t Hcb Hall eq_refl) in Hin.
           discriminate Hin.
      * cbn [fst snd]. exists []. split; [ apply extends_refl | ].
        split; [ constructor | intros k [] ].
Qed.

End Transactions.

(** ** Whole runs *)

Section Runs.

Variable env : environment.

Lemma openTransaction_trace m self idb :
  Forall (fun e => is_opening e = true)
         (trace (fst (openTransaction env m self (start idb)))).
Proof.
  unfold openTransaction.
  destruct (openDbEnsureStore_trace env open_depth (dbName self) None (storeName self) (start idb))
    as (evs & Hevs & Hall).
  destruct (openDbEnsureStore env open_depth (dbName self) None (storeName self) (start idb))
    as [w1 [[e|d]|]]; cbn [fst start trace app] in *; try (rewrite Hevs; exact Hall).
  destruct (objectStores d !! storeName self); cbn [fst emit trace].
  - rewrite Hevs; exact Hall.
  - rewrite Hevs. apply Forall_app. split; [ exact Hall | repeat constructor ].
Qed.

Lemma openTransaction_success m self w w1 d t :
  openTransaction env m self w = (w1, Some (inr (d, t))) ->
  exists rs,
    objectStores d !! storeName self = Some rs
    /\ t = mkTrx rs None false (fun _ => []) [] (trace w1 ++ [EvTransaction (storeName self) m]).
Proof.
  unfold openTransaction.
  destruct (openDbEnsureStore env open_depth (dbName self) None (storeName self) w)
    as [w2 [[e|d2]|]]; try discriminate.
  destruct (objectStores d2 !! storeName self) as [rs|] eqn:Hrs; [ | discriminate ].
  intros [= <- <- <-]. exists rs. auto.
Qed.

Lemma persistNewState_series_None objects t :
  persistNewState_series env None objects t
  = fst (eachSeries objects (persistNewState_iterator env) t).
Proof.
  unfold persistNewState_series.
  destruct (eachSeries objects (persistNewState_iterator env) t) as [t' [err|]]; reflexivity.
Qed.

Lemma operations_upgrades (self : Persistence) (idb : gmap string database) :
  let n := upgrades (trace (fst (openIndexedDB env self (start idb)))) in
  (forall objects, upgrades (trace (persistNewState env self objects (start idb))) = n)
  /\ (inMemoryOnly self = false ->
      upgrades (trace (persistCachedDatabase env self (start idb))) = n)
  /\ (window_inMemoryOnly env = false ->
      upgrades (trace (loadDatabase env self (start idb))) = n).
Proof.
  intros n. subst n. unfold openIndexedDB.
  split; [ | split ].
  - intros objects. unfold persistNewState, openWriteTransaction, openTransaction.
    destruct (openDbEnsureStore env open_depth (dbName self) None (storeName self) (start idb))
      as [w [[err|d]|]]; cbn [fst]; [ | | reflexivity ].
    + cbn [emit trace]. rewrite upgrades_app. cbn. lia.
    + destruct (objectStores d !! storeName self) as [rs|];
        [ | cbn [emit trace]; rewrite upgrades_app; cbn; lia ].
      rewrite finish_trace, persistNewState_series_None.
      set (t0 := set_oncomplete _ (set_onerror _ _)).
      assert (Hcb : forall e, from_handler t0 e -> is_callback e = true).
      { intros e [x [<-|[]]]. reflexivity. }
      destruct (persistNewState_series_shape env objects t0 Hcb) as (evs & Hext & Hall & _).
      set (t1 := fst (eachSeries objects (persistNewState_iterator env) t0)) in *.
      destruct (settle_extends env t1) as (evs' & Hext' & Hall').
      destruct (extends_trans _ _ _ _ _ Hext Hext') as (Hlog & _ & _).
      rewrite Hlog. cbn [t0 set_oncomplete set_onerror log].
      rewrite !upgrades_app.
      rewrite (upgrades_none evs), (upgrades_none evs'); [ cbn; lia | | ].
      * eapply Forall_impl; [ exact Hall' | ]. intros e [He|He].
        -- eapply from_handler_extends in He; [ | exact Hext ]. apply Hcb in He.
           destruct e; try discriminate He; reflexivity.
        -- destruct Hext as (_ & _ & Hc). rewrite Hc in He. destruct He as [<-|[]]. reflexivity.
      * eapply Forall_impl; [ exact Hall | ]. intros e [He|[He|He]].
        -- apply Hcb in He. destruct e; try discriminate He; reflexivity.
        -- destruct e; try discriminate He; reflexivity.
        -- subst e. reflexivity.
  - intros Hmem. unfold persistCachedDatabase, openWriteTransaction, openTransaction. rewrite Hmem.
    destruct (openDbEnsureStore env open_depth (dbName self) None (storeName self) (start idb))
      as [w [[err|d]|]]; cbn [fst]; [ | | reflexivity ].
    + cbn [emit trace]. rewrite upgrades_app. cbn. lia.
    + destruct (objectStores d !! storeName self) as [rs|];
        [ | cbn [emit trace]; rewrite upgrades_app; cbn; lia ].
      cbn [store_openCursor records set_oncomplete set_onerror].
      rewrite finish_trace.
      set (t0 := note [EvOpenCursor] _).
      assert (Hcb : forall e, from_handler t0 e -> is_callback e = true).
      { intros e [x [<-|[]]]. reflexivity. }
      destruct (cursor_done_shape env (getAllData (db self)) t0 (map _id rs) Hcb)
        as (evs & Hext & Hall & _).
      set (t1 := fst (cursor_done env (getAllData (db self)) t0 (map _id rs))) in *.
      destruct (settle_extends env t1) as (evs' & Hext' & Hall').
      destruct (extends_trans _ _ _ _ _ Hext Hext') as (Hlog & _ & _).
      rewrite Hlog. cbn [t0 note set_oncomplete set_onerror log].
      rewrite !upgrades_app.
      rewrite (upgrades_none evs), (upgrades_none evs'); [ cbn; lia | | ].
      * eapply Forall_impl; [ exact Hall' | ]. intros e [He|He].
        -- eapply from_handler_extends in He; [ | exact Hext ]. apply Hcb in He.
           destruct e; try discriminate He; reflexivity.
        -- destruct Hext as (_ & _ & Hc). rewrite Hc in He. destruct He as [<-|[]]. reflexivity.
      * eapply Forall_impl; [ exact Hall | ]. intros e [He|[He|[[k He]|[k He]]]].
        -- apply Hcb in He. destruct e; try discriminate He; reflexivity.
        -- destruct e; try discriminate He; reflexivity.
        -- subst e. reflexivity.
        -- subst e. reflexivity.
  - intros Hwin. unfold loadDatabase, openWriteTransaction, openTransaction. rewrite Hwin.
    change (emit (EvResetIndexes None) (start idb))
      with (prefix_trace [EvResetIndexes None] (start idb)).
    rewrite openDbEnsureStore_prefix_trace.
    destruct (openDbEnsureStore env open_depth (dbName self) None (storeName self) (start idb))
      as [w [[err|d]|]]; cbn [fst snd]; [ | | reflexivity ].
    + cbn [emit prefix_trace trace]. rewrite !upgrades_app. cbn. lia.
    + destruct (objectStores d !! storeName self) as [rs|];
        [ | cbn [emit prefix_trace trace]; rewrite !upgrades_app; cbn; lia ].
      cbn [store_openCursor].
      rewrite finish_trace. unfold settle, deliver, note, set_oncomplete, set_onerror.
      cbn [store_openCursor note records error bubbling onerror oncomplete log prefix_trace trace].
      rewrite !upgrades_app. cbn. lia.
Qed.

End Runs.

(** ** The schema version

    C7.  On an engine that lets the database open, ensuring the store
    succeeds with a handle on a database that has the store, provided the
    store is there or the version can still go up (at the last version
    there is, [open] throws at [db.version + 1]).  If the store was there,
    nothing changes and no upgrade takes place; if it was missing (in
    particular on a fresh engine, whose version counts as 0) there is
    exactly one upgrade, the version goes up by one and the store is created
    empty.  Each persistence operation that opens the database sees exactly
    these upgrades and no other. *)
Theorem schema_version_upgraded_once (env : environment) (self : Persistence)
    (idb : gmap string database) :
  (forall v, open_fails env (dbName self) v = false) ->
  let old := default (mkDatabase 0 ∅) (idb !! dbName self) in
  contains (storeName self) old = true \/ (version old < max_version)%N ->
  exists w d,
    openIndexedDB env self (start idb) = (w, Some (inr d))
    /\ contains (storeName self) d = true
    /\ indexedDB w !! dbName self = Some d
    /\ (if contains (storeName self) old
        then indexedDB w = idb /\ upgrades (trace w) = 0%nat /\ d = old
        else indexedDB w = <[dbName self := d]> idb /\ upgrades (trace w) = 1%nat
             /\ d = mkDatabase (version old + 1)
                               (<[storeName self := []]> (objectStores old)))
    /\ (forall objects,
          upgrades (trace (persistNewState env self objects (start idb))) = upgrades (trace w))
    /\ (inMemoryOnly self = false ->
        upgrades (trace (persistCachedDatabase env self (start idb))) = upgrades (trace w))
    /\ (window_inMemoryOnly env = false ->
        upgrades (trace (loadDatabase env self (start idb))) = upgrades (trace w)).
Proof.
  intros Hok old Hmax.
  destruct (openDbEnsureStore_ensures_store env (dbName self) (storeName self) idb Hok Hmax)
    as (w & d & Hopen & Hc & Hd & Hif).
  exists w, d. fold old in Hif.
  pose proof (operations_upgrades env self idb) as Hops.
  unfold openIndexedDB in *. rewrite Hopen in Hops. cbn [fst] in Hops.
  repeat split; tauto.
Qed.

(** A fresh engine: one upgrade, to version 1. *)
Lemma schema_version_upgraded_once_witness :
  exists w d,
    openIndexedDB (reliable RequestErrorAborts) (new_Persistence (datastore [])) (start ∅)
    = (w, Some (inr d))
    /\ upgrades (trace w) = 1%nat /\ version d = 1%N.
Proof.
  destruct (schema_version_upgraded_once (reliable RequestErrorAborts)
              (new_Persistence (datastore [])) ∅)
    as (w & d & Hopen & _ & _ & Hif & _).
  - intros v. reflexivity.
  - right. reflexivity.
  - exists w, d. vm_compute in Hif. destruct Hif as (_ & Hu & ->). auto.
Defined.

(** ** Compaction: the bookkeeping of [keysToDelete] *)

Lemma indexOf_absent_iff (x : string) (arr : list string) :
  JsArray.indexOf x arr = -1 <-> ~ In x arr.
Proof.
  induction arr as [|y arr IH]; cbn [JsArray.indexOf In]; [ tauto | ].
  assert (Hge : forall l, -1 <= JsArray.indexOf x l).
  { induction l as [|z l IHl]; cbn [JsArray.indexOf]; [ lia | ].
    destruct (String.eqb z x); [ lia | ].
    destruct (Z.eqb_spec (JsArray.indexOf x l) (-1)); lia. }
  destruct (String.eqb_spec y x) as [->|Hne].
  - split; [ lia | tauto ].
  - destruct (Z.eqb_spec (JsArray.indexOf x arr) (-1)) as [He|He].
    + split; [ intros _ | reflexivity ].
      intros [H|H]; [ congruence | ]. apply IH in He. tauto.
    + specialize (Hge arr). split; [ lia | ]. intros H. exfalso. apply He, IH. tauto.
Qed.

(** The handler looks the key up and splices only when the lookup fails:
    a key that is in [keysToDelete] stays there. *)
Lemma putReq_onsuccess_present (o : doc) (keysToDelete : list string) :
  In (_id o) keysToDelete -> putReq_onsuccess o keysToDelete = keysToDelete.
Proof.
  intros Hin. unfold putReq_onsuccess.
  destruct (Z.eqb_spec (JsArray.indexOf (_id o) keysToDelete) (-1)) as [He|He];
    [ | reflexivity ].
  apply indexOf_absent_iff in He. contradiction.
Qed.

(** When the lookup fails the handler splices at [-1]: the last key, whatever
    it is, leaves [keysToDelete]. *)
Lemma splice_last_one (arr : list string) : JsArray.splice (-1) 1 arr = removelast arr.
Proof.
  unfold JsArray.splice. cbn [Z.ltb Z.compare].
  destruct arr as [|x arr]; [ reflexivity | ].
  set (l := x :: arr).
  assert (Hlen : Z.of_nat (length l) = Z.of_nat (length arr) + 1) by (cbn [l length]; lia).
  rewrite Hlen.
  replace (Z.max (Z.of_nat (length arr) + 1 + -1) 0) with (Z.of_nat (length arr)) by lia.
  replace (Z.min (Z.max 1 0) (Z.of_nat (length arr) + 1 - Z.of_nat (length arr))) with 1 by lia.
  rewrite Nat2Z.id.
  replace (Z.to_nat (Z.of_nat (length arr) + 1)) with (length l) by (cbn [l length]; lia).
  rewrite List.skipn_all, app_nil_r.
  rewrite List.removelast_firstn_len. reflexivity.
Qed.

Lemma putReq_onsuccess_absent (o : doc) (keysToDelete : list string) :
  ~ In (_id o) keysToDelete -> putReq_onsuccess o keysToDelete = removelast keysToDelete.
Proof.
  intros Hin. apply indexOf_absent_iff in Hin. unfold putReq_onsuccess.
  rewrite Hin. cbn [Z.eqb Pos.eqb]. apply splice_last_one.
Qed.

Lemma keysToDelete_unchanged (objects : list doc) (keys : list string) :
  Forall (fun o => In (_id o) keys) objects ->
  fold_left (fun ks o => putReq_onsuccess o ks) objects keys = keys.
Proof.
  induction 1 as [|o objects Ho _ IH]; cbn [fold_left]; [ reflexivity | ].
  rewrite putReq_onsuccess_present by exact Ho. exact IH.
Qed.

Lemma keysToDelete_stays_empty (objects : list doc) :
  fold_left (fun ks o => putReq_onsuccess o ks) objects [] = [].
Proof. induction objects as [|o objects IH]; cbn [fold_left]; [ reflexivity | exact IH ]. Qed.

(** ** Compaction on examples *)

(** C1 (the durable key set after a successful compaction is the set of
    snapshot identifiers) fails on the code.  The snapshot holds the
    document ["a"] and so does the store: the run reports success and leaves
    the store empty, the key of the snapshot document is missing. *)
Theorem persistCachedDatabase_loses_stored_document :
  let self := new_Persistence (datastore [plain "a" []]) in
  let w := persistCachedDatabase (reliable RequestErrorAborts) self (start (holding ["a"])) in
  trace w = [EvOpen "db" None; EvTransaction "docs" readwrite; EvOpenCursor;
             EvPut "a" true; EvDelete "a" true; EvCallback None]
  /\ durableKeys self w = []
  /\ ~ same_keys (durableKeys self w) (map _id (getAllData (db self))).
Proof.
  repeat split; try (vm_compute; reflexivity).
  intros H. destruct (proj2 (H "a")). vm_compute. auto.
Qed.

(** C2 (a successful upsert takes the document's key out of
    [keysToDelete], so that exactly the keys not upserted are deleted) fails
    on the code.  The store holds ["a"] and ["c"], the snapshot ["a"] and
    ["b"].  After the successful put of ["a"] the key ["a"] is still in
    [keysToDelete]; the successful put of ["b"] takes out ["c"], which was
    not upserted.  The delete phase deletes the upserted ["a"] and keeps
    ["c"]. *)
Theorem keysToDelete_keeps_upserted_key :
  let self := new_Persistence (datastore [plain "a" []; plain "b" []]) in
  let w := persistCachedDatabase (reliable RequestErrorAborts) self (start (holding ["a"; "c"])) in
  putReq_onsuccess (plain "a" []) ["a"; "c"] = ["a"; "c"]
  /\ putReq_onsuccess (plain "b" []) ["a"; "c"] = ["a"]
  /\ requests (trace w) = [EvPut "a" true; EvPut "b" true; EvDelete "a" true]
  /\ durableKeys self w = ["b"; "c"].
Proof. repeat split; vm_compute; reflexivity. Qed.

(** C6 (a second compaction without intervening mutation leaves the
    durable key set unchanged) fails on the code.  Two runs in a row on a
    fresh engine, the snapshot holding ["a"] throughout: both report
    success, the first leaves the key ["a"], the second leaves no key. *)
Theorem persistCachedDatabase_twice_differs :
  let self := new_Persistence (datastore [plain "a" []]) in
  let w1 := persistCachedDatabase (reliable RequestErrorAborts) self (start ∅) in
  let w2 := persistCachedDatabase (reliable RequestErrorAborts) self w1 in
  durableKeys self w1 = ["a"]
  /\ durableKeys self w2 = []
  /\ last (trace w1) = Some (EvCallback None)
  /\ last (trace w2) = Some (EvCallback None)
  /\ ~ same_keys (durableKeys self w2) (durableKeys self w1).
Proof.
  repeat split; try (vm_compute; reflexivity).
  intros H. destruct (proj2 (H "a")). vm_compute. auto.
Qed.

(** Counterexample to C9: the snapshot is empty, the store holds ["a"] and
    the delete of ["a"] fails.  The error goes to the console; the caller's
    callback never receives it, whichever way the engine treats the failed
    request. *)
Lemma persistCachedDatabase_delete_error_not_reported :
  ~ reports_write_errors (failing_on "a" RequestErrorAborts) (new_Persistence (datastore []))
      (holding ["a"])
  /\ ~ reports_write_errors (failing_on "a" RequestErrorIsLocal) (new_Persistence (datastore []))
      (holding ["a"]).
Proof.
  split; intros H.
  all: destruct (H "a") as [_ Hdel].
  all: match type of Hdel with
       | In ?e ?tr -> _ => assert (Hin : In e tr) by (vm_compute; intuition)
       end.
  all: specialize (Hdel Hin); vm_compute in Hdel; intuition discriminate.
Qed.

(** ** Compaction without failing requests *)

Section CleanCompaction.

Variable env : environment.
Hypothesis puts_succeed : forall k, put_fails env k = false.
Hypothesis deletes_succeed : forall k, delete_fails env k = false.

Lemma put_series_clean objects rs h c l keys :
  eachSeries objects (put_iterator env) (mkTrx rs None false h c l, keys)
  = ((mkTrx (fold_left (fun rs o => ObjectStore.put o rs) objects rs) None false h c
            (l ++ map (fun o => EvPut (_id o) true) objects),
      fold_left (fun ks o => putReq_onsuccess o ks) objects keys), Finished None).
Proof.
  revert rs l keys. induction objects as [|o objects IH]; intros rs l keys.
  - cbn. rewrite app_nil_r. reflexivity.
  - cbn [eachSeries fold_left map]. unfold put_iterator at 1, store_put, deliver.
    cbn [bubbling error]. rewrite puts_succeed.
    rewrite bool_decide_eq_false_2 by (intros [? ?]; discriminate).
    cbn [orb records bubbling error onerror oncomplete log].
    rewrite IH, <- List.app_assoc. reflexivity.
Qed.

Lemma delete_series_clean keys rs h c l :
  eachSeries keys (delete_iterator env) (mkTrx rs None false h c l)
  = (mkTrx (fold_left (fun rs k => ObjectStore.delete k rs) keys rs) None false h c
           (l ++ map (fun k => EvDelete k true) keys), Finished None).
Proof.
  revert rs l. induction keys as [|k keys IH]; intros rs l.
  - cbn. rewrite app_nil_r. reflexivity.
  - cbn [eachSeries fold_left map]. unfold delete_iterator at 1, store_delete, deliver.
    cbn [bubbling error]. rewrite deletes_succeed.
    rewrite bool_decide_eq_false_2 by (intros [? ?]; discriminate).
    cbn [orb records bubbling error onerror oncomplete log].
    rewrite IH, <- List.app_assoc. reflexivity.
Qed.

(** What a compaction without failing requests leaves in the store. *)
Lemma persistCachedDatabase_clean (self : Persistence) (idb : gmap string database)
    (w1 : world) (d : database) (t : transaction) :
  inMemoryOnly self = false ->
  openWriteTransaction env self (start idb) = (w1, Some (inr (d, t))) ->
  let objects := getAllData (db self) in
  let w := persistCachedDatabase env self (start idb) in
  durableRecords self w
  = fold_left (fun rs k => ObjectStore.delete k rs)
      (fold_left (fun ks o => putReq_onsuccess o ks) objects (map _id (records t)))
      (fold_left (fun rs o => ObjectStore.put o rs) objects (records t))
  /\ last (trace w) = Some (EvCallback None).
Proof.
  intros Hmem Ht objects w. subst w objects. unfold persistCachedDatabase. rewrite Hmem, Ht.
  unfold openWriteTransaction in Ht.
  destruct (openTransaction_success _ _ _ _ _ _ _ Ht) as (rs & Hrs & ->).
  unfold set_oncomplete, set_onerror, store_openCursor, note.
  cbn [records error bubbling onerror oncomplete log].
  unfold cursor_done. rewrite put_series_clean, delete_series_clean. cbn [fst].
  unfold finish, settle, deliver, note.
  cbn [records error bubbling onerror oncomplete log trace]. split.
  - unfold durableRecords. cbn [indexedDB]. rewrite lookup_insert_eq.
    cbn [objectStores]. rewrite lookup_insert_eq. reflexivity.
  - apply last_snoc.
Qed.

(** Where every snapshot document is already stored, a compaction without
    failing requests empties the store. *)
Lemma persistCachedDatabase_empties_store (self : Persistence) (idb : gmap string database)
    (w1 : world) (d : database) (t : transaction) :
  inMemoryOnly self = false ->
  openWriteTransaction env self (start idb) = (w1, Some (inr (d, t))) ->
  Forall (fun o => In (_id o) (ObjectStore.keys (records t))) (getAllData (db self)) ->
  durableRecords self (persistCachedDatabase env self (start idb)) = [].
Proof.
  intros Hmem Ht Hstored.
  destruct (persistCachedDatabase_clean self idb w1 d t Hmem Ht) as [-> _].
  rewrite keysToDelete_unchanged by exact Hstored.
  match goal with |- ?l = [] => destruct l as [|r l'] eqn:Hl; [ reflexivity | exfalso ] end.
  assert (Hr : In r (r :: l')) by (left; reflexivity). rewrite <- Hl in Hr.
  apply delete_all_elem in Hr. destruct Hr as [Hr Hnot]. apply Hnot.
  apply (in_map _id) in Hr. fold (ObjectStore.keys) in Hr.
  change (In (_id r) (ObjectStore.keys (fold_left (fun rs o => ObjectStore.put o rs)
                                           (getAllData (db self)) (records t)))) in Hr.
  apply put_all_keys in Hr. destruct Hr as [Hr|Hr]; [ | exact Hr ].
  apply in_map_iff in Hr. destruct Hr as (o & <- & Ho).
  rewrite Forall_forall in Hstored. apply Hstored, list_elem_of_In, Ho.
Qed.

(** On an empty store a compaction without failing requests converges: the
    durable keys are the identifiers of the snapshot. *)
Lemma persistCachedDatabase_converges_on_empty_store (self : Persistence)
    (idb : gmap string database) (w1 : world) (d : database) (t : transaction) :
  inMemoryOnly self = false ->
  openWriteTransaction env self (start idb) = (w1, Some (inr (d, t))) ->
  records t = [] ->
  same_keys (durableKeys self (persistCachedDatabase env self (start idb)))
            (map _id (getAllData (db self))).
Proof.
  intros Hmem Ht Hempty k. unfold durableKeys.
  destruct (persistCachedDatabase_clean self idb w1 d t Hmem Ht) as [-> _].
  rewrite Hempty. cbn [map]. rewrite keysToDelete_stays_empty. cbn [fold_left].
  rewrite put_all_keys. cbn. tauto.
Qed.

End CleanCompaction.

(** ** Compaction with failing requests *)

Section Compaction.

Variable env : environment.

(** C9, amended.  In [persistCachedDatabase] a failed put is reported to
    the caller's callback with the record's key; a failed delete is written
    to the console with its key, and the callback never receives that
    error. *)
Theorem persistCachedDatabase_write_errors (self : Persistence)
    (idb : gmap string database) (k : string) :
  let tr := trace (persistCachedDatabase env self (start idb)) in
  (In (EvPut k false) tr -> In (EvCallback (Some (put_error k))) tr)
  /\ (In (EvDelete k false) tr -> In (EvConsoleError (delete_error k)) tr)
  /\ ~ In (EvCallback (Some (delete_error k))) tr.
Proof.
  intros tr. subst tr. unfold persistCachedDatabase, openWriteTransaction.
  destruct (inMemoryOnly self).
  { cbn. split; [ | split ]; intros [H|[]]; discriminate H. }
  pose proof (openTransaction_trace env readwrite self idb) as Hopen.
  rewrite Forall_forall in Hopen.
  assert (Hopen' : forall e, In e (trace (fst (openTransaction env readwrite self (start idb)))) ->
                   is_opening e = true).
  { intros e He. apply Hopen, list_elem_of_In, He. }
  clear Hopen.
  destruct (openTransaction env readwrite self (start idb)) as [w1 [[err|[d t]]|]] eqn:Ht;
    cbn [fst] in Hopen'.
  - apply openTransaction_error, openDbEnsureStore_error in Ht. subst err.
    cbn [emit trace]. split; [ | split ]; intros Hin; apply in_app_iff in Hin;
      destruct Hin as [Hin|[Hin|[]]]; try discriminate Hin;
      try (apply Hopen' in Hin; discriminate Hin).
  - destruct (openTransaction_success _ _ _ _ _ _ _ Ht) as (rs & Hrs & ->).
    cbn [store_openCursor records set_oncomplete set_onerror].
    rewrite finish_trace.
    set (h := fun e : option string =>
                [EvCallback (Some ("Error persisting cached data:" ++ js_string e))]).
    set (t0 := note [EvOpenCursor] _).
    assert (Hh : forall e, from_handler t0 e ->
                 exists x, e = EvCallback (Some ("Error persisting cached data:" ++ js_string x))).
    { intros e [x [Hx|[]]]. exists x. auto. }
    assert (Hcb : forall e, from_handler t0 e -> is_callback e = true).
    { intros e He. destruct (Hh e He) as [x ->]. reflexivity. }
    destruct (cursor_done_shape env (getAllData (db self)) t0 (map _id rs) Hcb)
      as (evs & Hext & Hall & Hput & Hdel).
    set (t1 := fst (cursor_done env (getAllData (db self)) t0 (map _id rs))) in *.
    destruct (settle_extends env t1) as (evs' & Hext' & Hall').
    destruct (extends_trans _ _ _ _ _ Hext Hext') as (Hlog & _ & _).
    rewrite Hlog. cbn [t0 note set_oncomplete set_onerror log].
    assert (Hsettle : forall e, In e evs' ->
              exists x, e = EvCallback x /\ x <> Some (delete_error k)).
    { rewrite Forall_forall in Hall'. intros e He. apply list_elem_of_In, Hall' in He.
      destruct He as [He|He].
      - eapply from_handler_extends in He; [ | exact Hext ].
        destruct (Hh e He) as [x ->]. eexists. split; [ reflexivity | ].
        intros H. apply (proj2 (transaction_error_not_delete_error (js_string x) k)).
        congruence.
      - destruct Hext as (_ & _ & Hc). rewrite Hc in He. destruct He as [<-|[]].
        eexists. split; [ reflexivity | discriminate ]. }
    rewrite Forall_forall in Hall.
    split; [ | split ]; intros Hin; rewrite ?in_app_iff in *; cbn [In] in Hin.
    + destruct Hin as [[[Hin|[Hin|[]]]|[Hin|[]]]|[Hin|Hin]]; try discriminate Hin.
      * apply Hopen' in Hin. discriminate Hin.
      * right. left. auto.
      * apply Hsettle in Hin. destruct Hin as (x & Hx & _). discriminate Hx.
    + destruct Hin as [[[Hin|[Hin|[]]]|[Hin|[]]]|[Hin|Hin]]; try discriminate Hin.
      * apply Hopen' in Hin. discriminate Hin.
      * right. left. auto.
      * apply Hsettle in Hin. destruct Hin as (x & Hx & _). discriminate Hx.
    + destruct Hin as [[[Hin|[Hin|[]]]|[Hin|[]]]|[Hin|Hin]]; try discriminate Hin.
      * apply Hopen' in Hin. discriminate Hin.
      * apply list_elem_of_In, Hall in Hin.
        destruct Hin as [Hin|[Hin|[[k' Hin]|[k' Hin]]]]; try discriminate Hin.
        destruct (Hh _ Hin) as [x Hx].
        apply (proj2 (transaction_error_not_delete_error (js_string x) k)). congruence.
      * apply Hsettle in Hin. destruct Hin as (x & Hx & Hne). congruence.
  - split; [ | split ]; intros Hin; apply Hopen' in Hin; discriminate Hin.
Qed.

End Compaction.

(** The delete of ["a"] fails: the console has the error. *)
Lemma persistCachedDatabase_write_errors_witness :
  In (EvConsoleError (delete_error "a"))
     (trace (persistCachedDatabase (failing_on "a" RequestErrorAborts)
               (new_Persistence (datastore [])) (start (holding ["a"])))).
Proof.
  apply (proj1 (proj2 (persistCachedDatabase_write_errors (failing_on "a" RequestErrorAborts)
                         (new_Persistence (datastore [])) (holding ["a"]) "a"))).
  vm_compute. auto 10.
Defined.

(** ** Incremental persistence on examples *)

(** The delta of the specification, [[{_id: "a", $$deleted: true}, {_id:
    "b", name: "x"}]], applied to a store holding ["a"] and ["c"], leaves
    ["b"] and ["c"]. *)
Example persistNewState_delta_example :
  let self := new_Persistence (datastore []) in
  let w := persistNewState (reliable RequestErrorAborts) self
             [tombstone "a"; plain "b" [("name", "x")]] (start (holding ["a"; "c"])) in
  requests (trace w) = [EvDelete "a" true; EvPut "b" true]
  /\ durableKeys self w = ["b"; "c"]
  /\ same_keys (durableKeys self w) ["c"; "b"].
Proof.
  repeat split; try (vm_compute; reflexivity); vm_compute; tauto.
Qed.

(** C3 (every document of the delta is processed in order, a metadata
    marker being skipped and processing continuing after it) fails on the
    code.  For a marker the iterator calls nothing, so the series never
    reaches the documents after it: the delta [[marker, {_id: "b"}]] puts
    nothing, the store keeps its keys and the caller is told of success. *)
Theorem persistNewState_stops_at_marker :
  let self := new_Persistence (datastore []) in
  let w := persistNewState (reliable RequestErrorAborts) self
             [indexMarker; plain "b" [("name", "x")]] (start (holding ["a"; "c"])) in
  trace w = [EvOpen "db" None; EvTransaction "docs" readwrite; EvCallback None]
  /\ requests (trace w) = []
  /\ durableKeys self w = ["a"; "c"]
  /\ ~ In "b" (durableKeys self w).
Proof.
  repeat split; try (vm_compute; reflexivity).
  vm_compute. intros [H|[H|[]]]; discriminate H.
Qed.

(** Counterexample to C4: the put of ["a"] fails and ["b"], which follows
    it in the delta, is never put, whichever way the engine treats the
    failed request. *)
Lemma persistNewState_put_error_not_continued :
  ~ log_and_continue (failing_on "a" RequestErrorAborts) (new_Persistence (datastore []))
      [plain "a" []; plain "b" []] (holding ["c"])
  /\ ~ log_and_continue (failing_on "a" RequestErrorIsLocal) (new_Persistence (datastore []))
      [plain "a" []; plain "b" []] (holding ["c"]).
Proof.
  split; intros H.
  all: specialize (H [] (plain "a" []) [plain "b" []] eq_refl).
  all: match type of H with
       | In ?e ?tr -> _ => assert (Hin : In e tr) by (vm_compute; intuition)
       end.
  all: destruct (H Hin (plain "b" []) (or_introl eq_refl)) as [ok Hb].
  all: vm_compute in Hb; intuition discriminate.
Qed.

Section Incremental.

Variable env : environment.

(** The series over documents that all go through. *)
Lemma persistNewState_clean_prefix pre rs h c l :
  forallb (goes_through env) pre = true ->
  eachSeries pre (persistNewState_iterator env) (mkTrx rs None false h c l)
  = (mkTrx (fold_left apply_doc pre rs) None false h c (l ++ map request_of pre), Finished None).
Proof.
  revert rs l. induction pre as [|o pre IH]; intros rs l Hpre.
  - cbn. rewrite app_nil_r. reflexivity.
  - cbn [forallb] in Hpre. apply andb_true_iff in Hpre. destruct Hpre as [Ho Hpre].
    cbn [eachSeries fold_left map]. unfold goes_through in Ho.
    unfold persistNewState_iterator at 1. unfold apply_doc at 2. unfold request_of at 1.
    destruct (deleted o).
    + unfold store_delete, deliver. cbn [bubbling error].
      apply negb_true_iff in Ho. rewrite Ho.
      rewrite bool_decide_eq_false_2 by (intros [? ?]; discriminate).
      cbn [orb records bubbling error onerror oncomplete log].
      rewrite (IH _ _ Hpre), <- List.app_assoc. reflexivity.
    + apply andb_true_iff in Ho. destruct Ho as [Ho Hput]. rewrite Ho.
      unfold store_put, deliver. cbn [bubbling error].
      apply negb_true_iff in Hput. rewrite Hput.
      rewrite bool_decide_eq_false_2 by (intros [? ?]; discriminate).
      cbn [orb records bubbling error onerror oncomplete log].
      rewrite (IH _ _ Hpre), <- List.app_assoc. reflexivity.
Qed.

Lemma opening_requests m self idb :
  requests (trace (fst (openTransaction env m self (start idb)))) = [].
Proof.
  apply requests_none. eapply Forall_impl; [ apply (openTransaction_trace env) | ].
  intros [] He; try discriminate He; reflexivity.
Qed.

(** C4, amended.  In [persistNewState] a failed put ends the batch: when
    the documents before it go through, the requests of the run are theirs,
    in order, followed by the failed put, and none for the documents after
    it. *)
Theorem persistNewState_put_error_stops (self : Persistence) (pre : list doc) (o : doc)
    (post : list doc) (idb : gmap string database) :
  opens env self idb = true ->
  forallb (goes_through env) pre = true ->
  deleted o = false -> indexCreated o = false -> indexRemoved o = false ->
  put_fails env (_id o) = true ->
  requests (trace (persistNewState env self (pre ++ o :: post) (start idb)))
  = (map request_of pre ++ [EvPut (_id o) false])%list.
Proof.
  unfold opens, persistNewState, openWriteTransaction.
  intros Hopens Hpre Hdel Hic Hir Hfail.
  pose proof (opening_requests readwrite self idb) as Hreq.
  destruct (openTransaction env readwrite self (start idb)) as [w1 [[err|[d t]]|]] eqn:Ht;
    try discriminate Hopens. cbn [fst] in Hreq.
  destruct (openTransaction_success _ _ _ _ _ _ _ Ht) as (rs & Hrs & ->).
  rewrite finish_trace, persistNewState_series_None.
  unfold set_oncomplete, set_onerror.
  cbn [records error bubbling onerror oncomplete log].
  erewrite eachSeries_app by (apply persistNewState_clean_prefix; exact Hpre).
  cbn [eachSeries]. unfold persistNewState_iterator at 1. rewrite Hdel, Hic, Hir.
  cbn [negb andb]. unfold store_put, deliver at 1. cbn [bubbling error].
  rewrite Hfail, orb_true_r. cbn [fst].
  unfold settle, deliver, fail_request.
  cbn [records error bubbling onerror oncomplete log].
  destruct (policy env); cbn [records error bubbling onerror oncomplete log note];
    rewrite !requests_app, Hreq, requests_map_request_of;
    cbn [requests List.filter is_request app]; rewrite app_nil_r; reflexivity.
Qed.

(** Where no request fails and the delta holds no marker, its documents are
    processed in order, each tombstone by a delete and each other document
    by a put, and the run reports success. *)
Lemma persistNewState_applies_delta (self : Persistence) (delta : list doc)
    (idb : gmap string database) (w1 : world) (d : database) (t : transaction) :
  openWriteTransaction env self (start idb) = (w1, Some (inr (d, t))) ->
  forallb (goes_through env) delta = true ->
  let w := persistNewState env self delta (start idb) in
  requests (trace w) = map request_of delta
  /\ durableRecords self w = fold_left apply_doc delta (records t)
  /\ last (trace w) = Some (EvCallback None).
Proof.
  intros Ht Hdelta w. subst w. unfold persistNewState. rewrite Ht.
  pose proof (opening_requests readwrite self idb) as Hreq.
  unfold openWriteTransaction in Ht. rewrite Ht in Hreq. cbn [fst] in Hreq.
  destruct (openTransaction_success _ _ _ _ _ _ _ Ht) as (rs & Hrs & ->).
  rewrite persistNewState_series_None.
  unfold set_oncomplete, set_onerror.
  cbn [records error bubbling onerror oncomplete log].
  rewrite (persistNewState_clean_prefix _ _ _ _ _ Hdelta). cbn [fst].
  unfold finish, settle, deliver, note.
  cbn [records error bubbling onerror oncomplete log trace].
  split; [ | split ].
  - rewrite !requests_app, Hreq, requests_map_request_of.
    cbn [requests List.filter is_request app]. rewrite app_nil_r. reflexivity.
  - unfold durableRecords. cbn [indexedDB]. rewrite lookup_insert_eq.
    cbn [objectStores]. rewrite lookup_insert_eq. reflexivity.
  - apply last_snoc.
Qed.

(** C10.  In [persistNewState], whenever the delete of a tombstoned
    document fails, the handler's reference to the unbound [k] throws: the
    failed delete is followed at once by the [ReferenceError], after which
    only the transaction's own handlers call back, never with the delete
    error of that key; nothing is written to the console. *)
Theorem persistNewState_delete_error_throws (self : Persistence) (objects : list doc)
    (idb : gmap string database) (k : string) :
  let tr := trace (persistNewState env self objects (start idb)) in
  In (EvDelete k false) tr ->
  (exists before after,
      tr = (before ++ EvDelete k false :: reference_error :: after)%list
      /\ Forall (fun e => exists x, e = EvCallback x /\ x <> Some (delete_error k)) after)
  /\ forall msg, ~ In (EvConsoleError msg) tr.
Proof.
  intros tr. subst tr. unfold persistNewState, openWriteTransaction.
  pose proof (openTransaction_trace env readwrite self idb) as Hopen.
  destruct (openTransaction env readwrite self (start idb)) as [w1 [[err|[d t]]|]] eqn:Ht;
    cbn [fst] in Hopen.
  - intros Hin. exfalso. cbn [emit trace] in Hin. apply in_app_iff in Hin.
    destruct Hin as [Hin|[Hin|[]]]; [ | discriminate Hin ].
    rewrite Forall_forall in Hopen. apply list_elem_of_In, Hopen in Hin. discriminate Hin.
  - destruct (openTransaction_success _ _ _ _ _ _ _ Ht) as (rs & Hrs & ->).
    rewrite finish_trace, persistNewState_series_None.
    set (h := fun e : option string =>
                [EvCallback (Some ("Error persisting cached data: " ++ js_string e))]).
    set (t0 := set_oncomplete _ (set_onerror h _)).
    assert (Hh : forall e, from_handler t0 e ->
                 exists x, e = EvCallback (Some ("Error persisting cached data: " ++ js_string x))).
    { intros e [x [Hx|[]]]. exists x. auto. }
    assert (Hcb : forall e, from_handler t0 e -> is_callback e = true).
    { intros e He. destruct (Hh e He) as [x ->]. reflexivity. }
    destruct (persistNewState_series_shape env objects t0 Hcb) as (evs & Hext & Hall & Hdel).
    set (t1 := fst (eachSeries objects (persistNewState_iterator env) t0)) in *.
    destruct (settle_extends env t1) as (evs' & Hext' & Hall').
    destruct (extends_trans _ _ _ _ _ Hext Hext') as (Hlog & _ & _).
    rewrite Hlog. cbn [t0 set_oncomplete set_onerror log].
    assert (Hsettle : Forall (fun e => exists x, e = EvCallback x /\ x <> Some (delete_error k))
                        evs').
    { eapply Forall_impl; [ exact Hall' | ]. intros e [He|He].
      - eapply from_handler_extends in He; [ | exact Hext ].
        destruct (Hh e He) as [x ->]. eexists. split; [ reflexivity | ].
        intros H. apply (proj1 (transaction_error_not_delete_error (js_string x) k)).
        congruence.
      - destruct Hext as (_ & _ & Hc). rewrite Hc in He. destruct He as [<-|[]].
        eexists. split; [ reflexivity | discriminate ]. }
    intros Hin. split.
    + rewrite !in_app_iff in Hin. cbn [In] in Hin.
      destruct Hin as [[Hin|[Hin|[]]]|[Hin|Hin]].
      * exfalso. rewrite Forall_forall in Hopen. apply list_elem_of_In, Hopen in Hin.
        discriminate Hin.
      * discriminate Hin.
      * destruct (Hdel k Hin) as (_ & evs0 & ->).
        exists ((trace w1 ++ [EvTransaction (storeName self) readwrite]) ++ evs0)%list, evs'.
        split; [ | exact Hsettle ].
        rewrite <- !List.app_assoc. reflexivity.
      * exfalso. rewrite Forall_forall in Hsettle. apply list_elem_of_In, Hsettle in Hin.
        destruct Hin as (x & Hx & _). discriminate Hx.
    + intros msg Hmsg. rewrite !in_app_iff in Hmsg. cbn [In] in Hmsg.
      destruct Hmsg as [[Hmsg|[Hmsg|[]]]|[Hmsg|Hmsg]].
      * rewrite Forall_forall in Hopen. apply list_elem_of_In, Hopen in Hmsg. discriminate Hmsg.
      * discriminate Hmsg.
      * rewrite Forall_forall in Hall. apply list_elem_of_In, Hall in Hmsg.
        destruct Hmsg as [Hmsg|[Hmsg|Hmsg]]; [ apply Hcb in Hmsg | | ]; discriminate Hmsg.
      * rewrite Forall_forall in Hsettle. apply list_elem_of_In, Hsettle in Hmsg.
        destruct Hmsg as (x & Hx & _). discriminate Hx.
  - intros Hin. exfalso.
    rewrite Forall_forall in Hopen. apply list_elem_of_In, Hopen in Hin. discriminate Hin.
Qed.

End Incremental.

(** The put of ["a"] fails after the delete of ["c"] went through. *)
Lemma persistNewState_put_error_stops_witness :
  requests (trace (persistNewState (failing_on "a" RequestErrorAborts)
                     (new_Persistence (datastore []))
                     ([tombstone "c"] ++ plain "a" [] :: [plain "b" []])
                     (start (holding ["c"]))))
  = (map request_of [tombstone "c"] ++ [EvPut "a" false])%list.
Proof.
  apply (persistNewState_put_error_stops (failing_on "a" RequestErrorAborts)
           (new_Persistence (datastore [])) [tombstone "c"] (plain "a" []) [plain "b" []]
           (holding ["c"])); vm_compute; reflexivity.
Defined.

(** The delete of ["a"] fails. *)
Lemma persistNewState_delete_error_throws_witness :
  exists before after,
    trace (persistNewState (failing_on "a" RequestErrorAborts) (new_Persistence (datastore []))
             [tombstone "a"; plain "b" []] (start (holding ["a"])))
    = (before ++ EvDelete "a" false :: reference_error :: after)%list
    /\ Forall (fun e => exists x, e = EvCallback x /\ x <> Some (delete_error "a")) after.
Proof.
  apply (persistNewState_delete_error_throws (failing_on "a" RequestErrorAborts)
           (new_Persistence (datastore [])) [tombstone "a"; plain "b" []] (holding ["a"]) "a").
  vm_compute. auto 10.
Defined.

(** ** In-memory-only mode *)

Lemma persistCachedDatabase_inMemoryOnly (env : environment) (self : Persistence) (w : world) :
  inMemoryOnly self = true -> persistCachedDatabase env self w = emit (EvCallback None) w.
Proof. intros H. unfold persistCachedDatabase. rewrite H. reflexivity. Qed.

(** [loadDatabase] does not look at [this.inMemoryOnly]; what makes it return
    at once is the global of that name. *)
Lemma loadDatabase_reads_the_global (env : environment) (d : Datastore) (b b' : bool)
    (n s : string) (w : world) :
  loadDatabase env (mkPersistence d b n s) w = loadDatabase env (mkPersistence d b' n s) w.
Proof. reflexivity. Qed.

Lemma loadDatabase_global_inMemoryOnly (env : environment) (self : Persistence) (w : world) :
  window_inMemoryOnly env = true ->
  loadDatabase env self w = emit (EvCallback None) (emit (EvResetIndexes None) w).
Proof. intros H. unfold loadDatabase. rewrite H. reflexivity. Qed.

(** C5 (in-memory-only mode: both [persistCachedDatabase] and
    [loadDatabase] succeed at once without any store operation) fails on the
    code for [loadDatabase], which tests the global [self.inMemoryOnly]
    instead of [this.inMemoryOnly]: with [inMemoryOnly] set and no such
    global, it opens (and here creates) the database, opens a transaction
    and scans the store.  [persistCachedDatabase] returns at once. *)
Theorem loadDatabase_ignores_inMemoryOnly :
  let self := new_Persistence (mkDatastore true "db" "docs" []) in
  let env := reliable RequestErrorAborts in
  inMemoryOnly self = true
  /\ trace (persistCachedDatabase env self (start ∅)) = [EvCallback None]
  /\ trace (loadDatabase env self (start ∅))
     = [EvResetIndexes None; EvOpen "db" None; EvUpgradeNeeded "db" 0 1;
        EvCreateObjectStore "db" "docs"; EvTransaction "docs" readwrite; EvOpenCursor;
        EvResetIndexes (Some []); EvProcessBuffer; EvCallback None]
  /\ indexedDB (loadDatabase env self (start ∅)) !! "db" = Some (mkDatabase 1 {[ "docs" := [] ]}).
Proof. repeat split; vm_compute; reflexivity. Qed.

(** * The operations on any engine *)

(** ** What an opening leaves behind *)

Section OpenOutcome.

Variable env : environment.

(** What one opening does to the engine. *)
Lemma indexedDB_open_outcome (n s : string) (v : option N) (w : world) :
  let r := indexedDB_open env n v (onupgradeneeded n s) w in
  match snd r with
  | OpenSuccess d =>
      indexedDB (fst r) !! n = Some d
      /\ (indexedDB (fst r) = indexedDB w
          \/ (contains s d = true
              /\ indexedDB (fst r) = <[n := d]> (indexedDB w)
              /\ objectStores d !! s = Some (default [] (records_of n s (indexedDB w)))
              /\ forall s', s' <> s ->
                   objectStores d !! s' = records_of n s' (indexedDB w)))
  | _ => indexedDB (fst r) = indexedDB w
  end.
Proof.
  unfold indexedDB_open. cbn zeta. rewrite versionchange_closes. cbn [emit indexedDB].
  destruct (invalid_version v) eqn:Hz; [ reflexivity | ].
  destruct (open_fails env n v); [ reflexivity | ].
  set (old := default (mkDatabase 0 ∅) (indexedDB w !! n)).
  set (new := match v, indexedDB w !! n with
              | Some v, _ => v | None, Some d => version d | None, None => 1%N end).
  destruct (N.ltb_spec new (version old)) as [Hlt|Hge]; [ reflexivity | ].
  destruct (N.ltb_spec (version old) new) as [Hup|Hsame].
  - assert (Hold : forall s', objectStores old !! s' = records_of n s' (indexedDB w)).
    { intros s'. unfold records_of. subst old. destruct (indexedDB w !! n); cbn; [ reflexivity | ].
      apply lookup_empty. }
    unfold onupgradeneeded. cbn [version objectStores].
    change (contains s (mkDatabase new (objectStores old))) with (contains s old).
    destruct (contains s old) eqn:Hc; cbn [negb fst snd emit indexedDB trace connections].
    + split; [ apply lookup_insert_eq | ]. right. split; [ exact Hc | ].
      split; [ reflexivity | ]. split; [ | intros s' _; apply Hold ].
      cbn [objectStores]. unfold contains in Hc. apply bool_decide_eq_true in Hc.
      destruct Hc as [rs Hrs]. rewrite <- Hold, Hrs. reflexivity.
    + split; [ apply lookup_insert_eq | ]. right. split; [ apply contains_insert | ].
      split; [ reflexivity | ]. cbn [objectStores]. split.
      * rewrite lookup_insert_eq, <- Hold.
        unfold contains in Hc. apply bool_decide_eq_false in Hc.
        destruct (objectStores old !! s) as [rs|] eqn:Hrs; [ exfalso; apply Hc; eauto | ].
        reflexivity.
      * intros s' Hs. rewrite lookup_insert_ne by congruence. apply Hold.
  - cbn [fst snd emit indexedDB]. split; [ | left; reflexivity ].
    subst old new. destruct (indexedDB w !! n) as [d0|] eqn:Hd0; [ reflexivity | ].
    exfalso. cbn [default from_option id version] in *.
    destruct v as [v|]; [ | lia ]. cbn [invalid_version] in Hz.
    apply orb_false_iff in Hz. destruct Hz as [Hz _]. apply N.eqb_neq in Hz. lia.
Qed.

Lemma openDbEnsureStore_handle (fuel : nat) (n s : string) (v : option N)
    (w w' : world) (d : database) :
  openDbEnsureStore env fuel n v s w = (w', Some (inr d)) ->
  contains s d = true /\ indexedDB w' !! n = Some d.
Proof.
  revert v w. induction fuel as [|fuel IH]; intros v w; cbn [openDbEnsureStore]; [ discriminate | ].
  pose proof (indexedDB_open_outcome n s v w) as Hout. cbn zeta in Hout.
  destruct (indexedDB_open env n v (onupgradeneeded n s) w) as [w1 [d1| |]];
    cbn [fst snd] in Hout; try discriminate.
  destruct (contains s d1) eqn:Hc; cbn [negb].
  - intros [= <- <-]. tauto.
  - intros H. apply IH in H. exact H.
Qed.

Lemma openDbEnsureStore_error_unchanged (fuel : nat) (n s : string) (v : option N)
    (w w' : world) (err : string) :
  openDbEnsureStore env fuel n v s w = (w', Some (inl err)) ->
  indexedDB w' = indexedDB w.
Proof.
  revert v w. induction fuel as [|fuel IH]; intros v w; cbn [openDbEnsureStore]; [ discriminate | ].
  pose proof (indexedDB_open_outcome n s v w) as Hout. cbn zeta in Hout.
  destruct (indexedDB_open env n v (onupgradeneeded n s) w) as [w1 [d1| |]];
    cbn [fst snd] in Hout; try discriminate.
  - destruct (contains s d1) eqn:Hc; cbn [negb]; [ discriminate | ].
    intros H. apply IH in H. rewrite H. cbn [emit indexedDB].
    destruct Hout as [_ [Hsame|[Hc' _]]]; [ exact Hsame | congruence ].
  - intros [= <- _]. exact Hout.
Qed.

Lemma openDbEnsureStore_frame (fuel : nat) (n s : string) (v : option N) (w : world)
    (n' s' : string) :
  n' <> n \/ s' <> s ->
  records_of n' s' (indexedDB (fst (openDbEnsureStore env fuel n v s w)))
  = records_of n' s' (indexedDB w).
Proof.
  intros Hne. revert v w. induction fuel as [|fuel IH]; intros v w; cbn [openDbEnsureStore];
    [ reflexivity | ].
  pose proof (indexedDB_open_outcome n s v w) as Hout. cbn zeta in Hout.
  destruct (indexedDB_open env n v (onupgradeneeded n s) w) as [w1 [d1| |]];
    cbn [fst snd] in Hout |- *; try (rewrite Hout; reflexivity).
  assert (H1 : records_of n' s' (indexedDB w1) = records_of n' s' (indexedDB w)).
  { destruct Hout as [Hd [->|(_ & -> & _ & Hst)]]; [ reflexivity | ].
    unfold records_of at 1. destruct (decide (n' = n)) as [->|Hn].
    - rewrite lookup_insert_eq. apply Hst. destruct Hne; congruence.
    - rewrite lookup_insert_ne by congruence. reflexivity. }
  destruct (negb (contains s d1)); [ | exact H1 ].
  rewrite IH. exact H1.
Qed.

(** The handle's store holds the records the engine had for it, or none if
    the store was created. *)
Lemma openDbEnsureStore_records (fuel : nat) (n s : string) (v : option N)
    (w w' : world) (d : database) :
  openDbEnsureStore env fuel n v s w = (w', Some (inr d)) ->
  objectStores d !! s = Some (default [] (records_of n s (indexedDB w))).
Proof.
  revert v w. induction fuel as [|fuel IH]; intros v w; cbn [openDbEnsureStore]; [ discriminate | ].
  pose proof (indexedDB_open_outcome n s v w) as Hout. cbn zeta in Hout.
  destruct (indexedDB_open env n v (onupgradeneeded n s) w) as [w1 [d1| |]];
    cbn [fst snd] in Hout; try discriminate.
  destruct (contains s d1) eqn:Hc; cbn [negb].
  - intros [= <- <-]. destruct Hout as [Hd [Hsame|(_ & _ & Hown & _)]]; [ | exact Hown ].
    unfold records_of. rewrite <- Hsame, Hd.
    unfold contains in Hc. apply bool_decide_eq_true in Hc. destruct Hc as [rs Hrs].
    rewrite Hrs. reflexivity.
  - intros H. apply IH in H. rewrite H. cbn [emit indexedDB].
    destruct Hout as [_ [->|[Hc' _]]]; [ reflexivity | congruence ].
Qed.

(** X3.  However often it reopens and whatever version is asked for, an
    [openDbEnsureStore] that calls back with a handle hands out the database
    as the engine now has it, with the store in it, holding the records the
    engine had for that store (none if it was created); one that calls back
    with an error reports "Error opening IndexedDB" and has left the engine
    as it was. *)
Theorem openDbEnsureStore_outcome (fuel : nat) (n s : string) (v : option N) (w : world) :
  let r := openDbEnsureStore env fuel n v s w in
  match snd r with
  | Some (inr d) =>
      contains s d = true
      /\ indexedDB (fst r) !! n = Some d
      /\ objectStores d !! s = Some (default [] (records_of n s (indexedDB w)))
  | Some (inl err) => err = "Error opening IndexedDB" /\ indexedDB (fst r) = indexedDB w
  | None => True
  end.
Proof.
  cbn zeta. destruct (openDbEnsureStore env fuel n v s w) as [w' [[err|d]|]] eqn:Hopen;
    cbn [fst snd]; [ | | exact I ].
  - split; [ exact (openDbEnsureStore_error env _ _ _ _ _ _ _ Hopen) | ].
    exact (openDbEnsureStore_error_unchanged _ _ _ _ _ _ _ Hopen).
  - destruct (openDbEnsureStore_handle _ _ _ _ _ _ _ Hopen) as [Hc Hd].
    split; [ exact Hc | ]. split; [ exact Hd | ].
    exact (openDbEnsureStore_records _ _ _ _ _ _ _ Hopen).
Qed.

End OpenOutcome.

(** The runs of [openDbEnsureStore] from a first call without version. *)
Lemma openDbEnsureStore_cases (env : environment) (n s : string) (w : world) :
  let r := openDbEnsureStore env open_depth n None s w in
  let closes := map EvClose (List.filter (String.eqb n) (connections w)) in
  let rest := List.filter (fun m => negb (String.eqb n m)) (connections w) in
  (open_fails env n None = true
   /\ r = (mkWorld (indexedDB w) (trace w ++ [EvOpen n None]) (connections w),
           Some (inl "Error opening IndexedDB")))
  \/ (exists d,
        open_fails env n None = false /\ indexedDB w !! n = Some d /\ contains s d = true
        /\ r = (mkWorld (indexedDB w) (trace w ++ [EvOpen n None]) (n :: connections w),
                Some (inr d)))
  \/ (open_fails env n None = false /\ indexedDB w !! n = None
      /\ let d := mkDatabase 1 (<[s := []]> ∅) in
         r = (mkWorld (<[n := d]> (indexedDB w))
                      (trace w ++ [EvOpen n None] ++ closes
                       ++ [EvUpgradeNeeded n 0 1; EvCreateObjectStore n s])
                      (n :: rest),
              Some (inr d)))
  \/ (exists d0,
        open_fails env n None = false /\ indexedDB w !! n = Some d0 /\ contains s d0 = false
        /\ let next := (version d0 + 1)%N in
           ((max_version <= version d0)%N
            /\ r = (mkWorld (indexedDB w)
                            (trace w ++ [EvOpen n None; EvClose n; EvOpen n (Some next);
                                         EvUncaught "TypeError"])
                            (connections w),
                    None))
           \/ ((version d0 < max_version)%N /\ open_fails env n (Some next) = true
               /\ r = (mkWorld (indexedDB w)
                               (trace w ++ [EvOpen n None; EvClose n; EvOpen n (Some next)])
                               (connections w),
                       Some (inl "Error opening IndexedDB")))
           \/ ((version d0 < max_version)%N /\ open_fails env n (Some next) = false
               /\ let d := mkDatabase next (<[s := []]> (objectStores d0)) in
                  r = (mkWorld (<[n := d]> (indexedDB w))
                               (trace w ++ [EvOpen n None; EvClose n; EvOpen n (Some next)]
                                ++ closes
                                ++ [EvUpgradeNeeded n (version d0) next;
                                    EvCreateObjectStore n s])
                               (n :: rest),
                       Some (inr d)))).
Proof.
  cbn zeta. unfold open_depth.
  destruct (open_fails env n None) eqn:Hf.
  { left. split; [ reflexivity | ]. cbn [openDbEnsureStore].
    rewrite indexedDB_open_error by auto. reflexivity. }
  right. destruct (indexedDB w !! n) as [d0|] eqn:Hd0.
  - cbn [openDbEnsureStore]. rewrite (indexedDB_open_current env n _ w d0) by auto.
    destruct (contains s d0) eqn:Hc; cbn [negb].
    { left. exists d0. repeat split; auto. }
    right. right. exists d0. split; [ reflexivity | ]. split; [ reflexivity | ].
    split; [ exact Hc | ].
    destruct (N.le_gt_cases max_version (version d0)) as [Hmax|Hmax].
    { left. split; [ exact Hmax | ].
      rewrite indexedDB_open_throws
        by (rewrite invalid_next_version; apply N.leb_le; exact Hmax).
      unfold emit. cbn [indexedDB trace connections]. rewrite <- !List.app_assoc. reflexivity. }
    right. destruct (open_fails env n (Some (version d0 + 1)%N)) eqn:Hf'.
    { left. split; [ exact Hmax | ]. split; [ reflexivity | ].
      rewrite indexedDB_open_error
        by (auto; rewrite invalid_next_version; apply N.leb_gt; exact Hmax).
      unfold emit. cbn [indexedDB trace connections]. rewrite <- !List.app_assoc. reflexivity. }
    right. split; [ exact Hmax | ]. split; [ reflexivity | ].
    pose proof (openDbEnsureStore_reopened env 0 n s
                  (emit (EvClose n) (emit (EvOpen n None) w)) d0 Hd0 Hc Hmax Hf') as H.
    cbn zeta in H. cbn [openDbEnsureStore] in H. rewrite H.
    cbn [emit indexedDB trace connections]. rewrite <- !List.app_assoc. reflexivity.
  - right. left. split; [ reflexivity | ]. split; [ reflexivity | ].
    rewrite (openDbEnsureStore_fresh env 1 n s w Hd0 Hf).
    rewrite <- !List.app_assoc. reflexivity.
Qed.


Section OpenedTransaction.

Variable env : environment.



(** How the transaction of an operation is opened. *)
Lemma openTransaction_cases (m : mode) (self : Persistence) (idb : gmap string database) :
  let r := openTransaction env m self (start idb) in
  Forall (fun e => e <> EvUncaught "NotFoundError") (trace (fst r))
  /\ (snd r = Some (inl "Error opening IndexedDB") /\ indexedDB (fst r) = idb
      \/ (exists d rs,
            snd r = Some (inr (d, mkTrx rs None false (fun _ => []) []
                                    (trace (fst r) ++ [EvTransaction (storeName self) m])))
            /\ indexedDB (fst r) !! dbName self = Some d
            /\ objectStores d !! storeName self = Some rs
            /\ rs = durableRecords self (start idb))
      \/ (snd r = None /\ indexedDB (fst r) = idb /\ opening_throws env self idb
          /\ Forall (fun e => is_callback e = false) (trace (fst r))
          /\ last (trace (fst r)) = Some (EvUncaught "TypeError"))).
Proof.
  unfold openTransaction.
  pose proof (openDbEnsureStore_cases env (dbName self) (storeName self) (start idb)) as Hruns.
  cbn zeta in Hruns. cbn [start connections List.filter map trace indexedDB app] in Hruns.
  assert (Hnf : forall w1 d rs,
            openDbEnsureStore env open_depth (dbName self) None (storeName self) (start idb)
            = (w1, Some (inr d)) ->
            objectStores d !! storeName self = Some rs ->
            Forall (fun e => e <> EvUncaught "NotFoundError") (trace w1)).
  { intros w1 d rs Hopen _. rewrite Hopen in Hruns.
    destruct Hruns as [[_ H]|[(? & _ & _ & _ & H)|[(_ & _ & H)|(d0 & _ & _ & _ & H)]]];
      [ | | | destruct H as [[_ H]|[(_ & _ & H)|(_ & _ & H)]] ];
      injection H as -> _; repeat constructor; discriminate. }
  destruct (openDbEnsureStore env open_depth (dbName self) None (storeName self) (start idb))
    as [w1 [[err|d]|]] eqn:Hopen; cbn [fst snd].
  - split.
    + destruct Hruns as [[_ H]|[(? & _ & _ & _ & H)|[(_ & _ & H)|(d0 & _ & _ & _ & H)]]];
        [ | | | destruct H as [[_ H]|[(_ & _ & H)|(_ & _ & H)]] ];
        injection H as -> _; repeat constructor; discriminate.
    + left. split.
      * pose proof (openDbEnsureStore_error _ _ _ _ _ _ _ _ Hopen) as He. subst err.
        reflexivity.
      * apply openDbEnsureStore_error_unchanged in Hopen. exact Hopen.
  - destruct (openDbEnsureStore_handle env _ _ _ _ _ _ _ Hopen) as [Hc Hd].
    unfold contains in Hc. apply bool_decide_eq_true in Hc. destruct Hc as [rs Hrs].
    rewrite Hrs. cbn [fst snd]. split; [ exact (Hnf w1 d rs eq_refl Hrs) | ].
    right. left. exists d, rs. repeat split; auto.
    pose proof (openDbEnsureStore_records env _ _ _ _ _ _ _ Hopen) as Hown.
    rewrite Hrs in Hown. injection Hown as ->.
    unfold durableRecords, records_of, start. cbn [indexedDB].
    destruct (idb !! dbName self); reflexivity.
  - destruct Hruns as [[_ H]|[(? & _ & _ & _ & H)|[(_ & _ & H)|(d0 & Hf & Hd0 & Hc & H)]]];
      try discriminate H.
    destruct H as [[Hmax H]|[(_ & _ & H)|(_ & _ & H)]]; try discriminate H.
    injection H as ->. cbn [trace indexedDB].
    split; [ repeat constructor; discriminate | ].
    right. right. split; [ reflexivity | ]. split; [ reflexivity | ].
    split; [ split; [ exact Hf | exists d0; auto ] | ].
    split; [ repeat constructor | reflexivity ].
Qed.

(** X4.  [openWriteTransaction] and [openReadTransaction] never fail to find
    the store ([db.transaction] throws no [NotFoundError]): the store they
    ask a transaction on is always in the handle.  They end in one of three
    ways.  The opening failed, the error is passed on and the engine is as
    it was.  Or the transaction starts on the records that were stored, with
    nothing else in the log than the opening and the transaction itself.
    Or the second opening threw, the store being missing at the last
    version there is: then the callback is not called and the engine is as
    it was. *)
Theorem openTransaction_outcome (m : mode) (self : Persistence) (idb : gmap string database) :
  let r := openTransaction env m self (start idb) in
  Forall (fun e => e <> EvUncaught "NotFoundError") (trace (fst r))
  /\ (snd r = Some (inl "Error opening IndexedDB") /\ indexedDB (fst r) = idb
      \/ (exists d rs,
            snd r = Some (inr (d, mkTrx rs None false (fun _ => []) []
                                    (trace (fst r) ++ [EvTransaction (storeName self) m])))
            /\ indexedDB (fst r) !! dbName self = Some d
            /\ objectStores d !! storeName self = Some rs
            /\ rs = durableRecords self (start idb))
      \/ (snd r = None /\ indexedDB (fst r) = idb /\ opening_throws env self idb
          /\ Forall (fun e => is_callback e = false) (trace (fst r))
          /\ last (trace (fst r)) = Some (EvUncaught "TypeError"))).
Proof. exact (openTransaction_cases m self idb). Qed.

End OpenedTransaction.

(** ** Other stores, and loading *)

Section Loading.

Variable env : environment.

Lemma openTransaction_prefix_trace (m : mode) (pre : list event) (self : Persistence) (w : world) :
  openTransaction env m self (prefix_trace pre w)
  = (prefix_trace pre (fst (openTransaction env m self w)),
     match snd (openTransaction env m self w) with
     | Some (inr (d, t)) =>
         Some (inr (d, mkTrx (records t) (error t) (bubbling t) (onerror t) (oncomplete t)
                             (pre ++ log t)))
     | r => r
     end).
Proof.
  unfold openTransaction. rewrite openDbEnsureStore_prefix_trace.
  destruct (openDbEnsureStore env open_depth (dbName self) None (storeName self) w)
    as [w1 [[err|d]|]]; cbn [fst snd]; try reflexivity.
  destruct (objectStores d !! storeName self); cbn [fst snd records error bubbling onerror
                                                     oncomplete log prefix_trace trace].
  - rewrite <- List.app_assoc. reflexivity.
  - rewrite emit_prefix_trace. reflexivity.
Qed.

Lemma finish_frame (n s : string) (d : database) (w : world) (t : transaction) (n' s' : string) :
  indexedDB w !! n = Some d -> n' <> n \/ s' <> s ->
  records_of n' s' (indexedDB (finish env n s d w t)) = records_of n' s' (indexedDB w).
Proof.
  intros Hd Hne. unfold finish. destruct (error (settle env t)); [ reflexivity | ].
  cbn [indexedDB]. unfold records_of. destruct (decide (n' = n)) as [->|Hn].
  - rewrite lookup_insert_eq, Hd. cbn [objectStores].
    rewrite lookup_insert_ne by (destruct Hne; congruence). reflexivity.
  - rewrite lookup_insert_ne by congruence. reflexivity.
Qed.

Lemma openTransaction_frame (m : mode) (self : Persistence) (idb : gmap string database)
    (n s : string) :
  n <> dbName self \/ s <> storeName self ->
  records_of n s (indexedDB (fst (openTransaction env m self (start idb)))) = records_of n s idb.
Proof.
  intros Hne.
  pose proof (openDbEnsureStore_frame env open_depth (dbName self) (storeName self) None
                (start idb) n s Hne) as H.
  unfold openTransaction.
  destruct (openDbEnsureStore env open_depth (dbName self) None (storeName self) (start idb))
    as [w1 [[err|d]|]]; cbn [fst] in *; try exact H.
  destruct (objectStores d !! storeName self); exact H.
Qed.

(** X5.  The three operations work on the one store of the one database
    they were set up with: whatever the engine does, the records of every
    other store, of this database or of another, are left as they were. *)
Theorem operations_leave_other_stores (self : Persistence) (idb : gmap string database)
    (n s : string) :
  n <> dbName self \/ s <> storeName self ->
  (forall objects,
      records_of n s (indexedDB (persistNewState env self objects (start idb)))
      = records_of n s idb)
  /\ records_of n s (indexedDB (persistCachedDatabase env self (start idb))) = records_of n s idb
  /\ records_of n s (indexedDB (loadDatabase env self (start idb))) = records_of n s idb.
Proof.
  intros Hne.
  pose proof (openTransaction_frame readwrite self idb n s Hne) as Hframe.
  pose proof (openTransaction_cases env readwrite self idb) as [_ Hout]. cbn zeta in Hout.
  split; [ | split ].
  - intros objects. unfold persistNewState, openWriteTransaction.
    destruct (openTransaction env readwrite self (start idb)) as [w1 [[err|[d t]]|]];
      cbn [fst snd emit indexedDB] in *; try exact Hframe.
    destruct Hout as [[H _]|[(d' & rs & H & Hd & _ & _)|[H _]]]; [ discriminate H | | discriminate H ].
    injection H as -> _. rewrite finish_frame by assumption. exact Hframe.
  - unfold persistCachedDatabase, openWriteTransaction.
    destruct (inMemoryOnly self); [ reflexivity | ].
    destruct (openTransaction env readwrite self (start idb)) as [w1 [[err|[d t]]|]];
      cbn [fst snd emit indexedDB] in *; try exact Hframe.
    destruct Hout as [[H _]|[(d' & rs & H & Hd & _ & _)|[H _]]]; [ discriminate H | | discriminate H ].
    injection H as -> _. cbn [store_openCursor]. rewrite finish_frame by assumption.
    exact Hframe.
  - unfold loadDatabase, openWriteTransaction.
    destruct (window_inMemoryOnly env); [ reflexivity | ].
    change (emit (EvResetIndexes None) (start idb))
      with (prefix_trace [EvResetIndexes None] (start idb)).
    rewrite openTransaction_prefix_trace.
    destruct (openTransaction env readwrite self (start idb)) as [w1 [[err|[d t]]|]];
      cbn [fst snd emit prefix_trace indexedDB] in *; try exact Hframe.
    destruct Hout as [[H _]|[(d' & rs & H & Hd & _ & _)|[H _]]]; [ discriminate H | | discriminate H ].
    injection H as -> _. cbn [store_openCursor]. rewrite finish_frame by assumption.
    exact Hframe.
Qed.


Lemma loadDatabase_not_opened (self : Persistence) (w w1 : world) (err : string) :
  window_inMemoryOnly env = false ->
  openWriteTransaction env self (emit (EvResetIndexes None) w) = (w1, Some (inl err)) ->
  loadDatabase env self w = emit (EvCallback (Some err)) w1.
Proof. intros Hw H. unfold loadDatabase. rewrite Hw, H. reflexivity. Qed.

Lemma loadDatabase_opened (self : Persistence) (w w1 : world) (d : database)
    (rs : list doc) (h : option string -> list event) (c l : list event) :
  window_inMemoryOnly env = false ->
  openWriteTransaction env self (emit (EvResetIndexes None) w)
  = (w1, Some (inr (d, mkTrx rs None false h c l))) ->
  loadDatabase env self w
  = mkWorld (<[dbName self := mkDatabase (version d)
                                (<[storeName self := rs]> (objectStores d))]> (indexedDB w1))
            (l ++ [EvOpenCursor; EvResetIndexes (Some rs); EvProcessBuffer; EvCallback None])
            (connections w1).
Proof.
  intros Hw H. unfold loadDatabase. rewrite Hw, H.
  transitivity
    (mkWorld (<[dbName self := mkDatabase (version d)
                                 (<[storeName self := rs]> (objectStores d))]> (indexedDB w1))
             (((l ++ [EvOpenCursor]) ++ [EvResetIndexes (Some rs)])
              ++ [EvProcessBuffer; EvCallback None])
             (connections w1)).
  - reflexivity.
  - rewrite <- !List.app_assoc. reflexivity.
Qed.

Lemma loadDatabase_threw (self : Persistence) (w w1 : world) :
  window_inMemoryOnly env = false ->
  openWriteTransaction env self (emit (EvResetIndexes None) w) = (w1, None) ->
  loadDatabase env self w = w1.
Proof. intros Hw H. unfold loadDatabase. rewrite Hw, H. reflexivity. Qed.

Lemma loadDatabase_opening (self : Persistence) (idb : gmap string database) :
  let r := openTransaction env readwrite self (start idb) in
  openWriteTransaction env self (emit (EvResetIndexes None) (start idb))
  = (prefix_trace [EvResetIndexes None] (fst r),
     match snd r with
     | Some (inr (d, t)) =>
         Some (inr (d, mkTrx (records t) (error t) (bubbling t) (onerror t) (oncomplete t)
                             ([EvResetIndexes None] ++ log t)))
     | r => r
     end).
Proof. exact (openTransaction_prefix_trace readwrite [EvResetIndexes None] self (start idb)). Qed.


(** The three ways [loadDatabase] goes once it opens the database. *)
Lemma loadDatabase_cases (self : Persistence) (idb : gmap string database) :
  window_inMemoryOnly env = false ->
  let r := openTransaction env readwrite self (start idb) in
  (snd r = Some (inl "Error opening IndexedDB")
   /\ loadDatabase env self (start idb)
      = mkWorld idb (EvResetIndexes None :: trace (fst r)
                     ++ [EvCallback (Some "Error opening IndexedDB")])
                (connections (fst r)))
  \/ (exists d t,
        snd r = Some (inr (d, t))
        /\ indexedDB (fst r) !! dbName self = Some d
        /\ objectStores d !! storeName self = Some (durableRecords self (start idb))
        /\ loadDatabase env self (start idb)
           = mkWorld (<[dbName self :=
                          mkDatabase (version d)
                            (<[storeName self := durableRecords self (start idb)]>
                               (objectStores d))]> (indexedDB (fst r)))
               (EvResetIndexes None :: trace (fst r)
                ++ [EvTransaction (storeName self) readwrite; EvOpenCursor;
                    EvResetIndexes (Some (durableRecords self (start idb)));
                    EvProcessBuffer; EvCallback None])
               (connections (fst r)))
  \/ (snd r = None /\ opening_throws env self idb
      /\ Forall (fun e => is_callback e = false) (trace (fst r))
      /\ last (trace (fst r)) = Some (EvUncaught "TypeError")
      /\ loadDatabase env self (start idb)
         = mkWorld idb (EvResetIndexes None :: trace (fst r)) (connections (fst r))).
Proof.
  intros Hw r.
  pose proof (loadDatabase_opening self idb) as Hpre.
  pose proof (openTransaction_cases env readwrite self idb) as [_ Hout].
  cbn zeta in Hpre, Hout. fold r in Hpre, Hout.
  destruct Hout as [[Hr Hidb]|[(d & rs & Hr & Hd & Hrs & Hdur)|(Hr & Hidb & Hthrows & Hcb & Hl)]].
  - left. rewrite Hr in Hpre. split; [ exact Hr | ].
    rewrite (loadDatabase_not_opened _ _ _ _ Hw Hpre).
    unfold emit, prefix_trace. cbn [indexedDB trace connections]. rewrite Hidb. reflexivity.
  - right. left. exists d. eexists. rewrite Hr in Hpre.
    cbn [records error bubbling onerror oncomplete log] in Hpre.
    rewrite (loadDatabase_opened _ _ _ _ _ _ _ _ Hw Hpre). subst rs.
    split; [ exact Hr | ]. split; [ exact Hd | ]. split; [ exact Hrs | ].
    cbn [prefix_trace indexedDB connections]. f_equal. cbn [app].
    rewrite <- !List.app_assoc. reflexivity.
  - right. right. rewrite Hr in Hpre. split; [ exact Hr | ]. split; [ exact Hthrows | ].
    split; [ exact Hcb | ]. split; [ exact Hl | ].
    rewrite (loadDatabase_threw _ _ _ Hw Hpre).
    unfold prefix_trace. rewrite Hidb. reflexivity.
Qed.

(** X6.  [loadDatabase] only reads: whatever the engine does, the stored
    records are afterwards what they were, and no put and no delete is
    requested. *)
Theorem loadDatabase_changes_no_document (self : Persistence) (idb : gmap string database) :
  durableRecords self (loadDatabase env self (start idb)) = durableRecords self (start idb)
  /\ requests (trace (loadDatabase env self (start idb))) = [].
Proof.
  destruct (window_inMemoryOnly env) eqn:Hw.
  - unfold loadDatabase. rewrite Hw. split; reflexivity.
  - pose proof (opening_requests env readwrite self idb) as Hreq.
    destruct (loadDatabase_cases self idb Hw)
      as [[_ ->]|[(d & t & _ & Hd & Hrs & ->)|(_ & _ & _ & _ & ->)]].
    + split; [ reflexivity | ].
      cbn [trace]. change (?e :: ?l ++ ?k)%list with ([e] ++ l ++ k)%list.
      rewrite !requests_app, Hreq. reflexivity.
    + split.
      * unfold durableRecords at 1. cbn [indexedDB]. rewrite lookup_insert_eq.
        cbn [objectStores]. rewrite lookup_insert_eq. reflexivity.
      * cbn [trace]. change (?e :: ?l ++ ?k)%list with ([e] ++ l ++ k)%list.
        rewrite !requests_app, Hreq. reflexivity.
    + split; [ reflexivity | ].
      cbn [trace]. change (?e :: ?l)%list with ([e] ++ l)%list.
      rewrite !requests_app, Hreq. reflexivity.
Qed.


Lemma openTransaction_throws (m : mode) (self : Persistence) (pre : list event)
    (idb : gmap string database) (d0 : database) :
  open_fails env (dbName self) None = false ->
  idb !! dbName self = Some d0 ->
  contains (storeName self) d0 = false ->
  (max_version <= version d0)%N ->
  openTransaction env m self (mkWorld idb pre [])
  = (mkWorld idb (pre ++ [EvOpen (dbName self) None; EvClose (dbName self);
                          EvOpen (dbName self) (Some (version d0 + 1)%N);
                          EvUncaught "TypeError"]) [], None).
Proof.
  intros Hf Hd0 Hc Hmax. unfold openTransaction.
  pose proof (openDbEnsureStore_cases env (dbName self) (storeName self) (mkWorld idb pre []))
    as H.
  cbn zeta in H. cbn [indexedDB trace connections] in H.
  destruct H as [[Hf' _]|[(d & _ & Hd & Hc' & _)|[(_ & Hd & _)|(d1 & _ & Hd & _ & H)]]];
    try congruence.
  assert (d1 = d0) as -> by congruence.
  destruct H as [[_ ->]|[(Hlt & _)|(Hlt & _)]]; [ reflexivity | lia | lia ].
Qed.

(** X20.  When the second opening throws (the first opening goes through,
    the store is missing and the version of the database is the last one
    there is, so that [db.version + 1] is no version), each of the three
    operations stops there: the database was opened, closed and asked for
    once more, the [TypeError] of that [open] is caught by nobody, the
    caller's callback is never called, the engine is as it was and no handle
    is left open.  This is the one way in which an operation that gets as
    far as opening ends without calling back. *)
Theorem throwing_reopen_is_silent (self : Persistence) (idb : gmap string database)
    (d0 : database) :
  opening_throws env self idb ->
  idb !! dbName self = Some d0 ->
  let evs := [EvOpen (dbName self) None; EvClose (dbName self);
              EvOpen (dbName self) (Some (version d0 + 1)%N); EvUncaught "TypeError"] in
  (forall objects, persistNewState env self objects (start idb) = mkWorld idb evs [])
  /\ (inMemoryOnly self = false ->
      persistCachedDatabase env self (start idb) = mkWorld idb evs [])
  /\ (window_inMemoryOnly env = false ->
      loadDatabase env self (start idb) = mkWorld idb (EvResetIndexes None :: evs) []).
Proof.
  intros (Hf & d1 & Hd1 & Hc & Hmax) Hd0.
  assert (d1 = d0) as -> by congruence.
  pose proof (fun m pre => openTransaction_throws m self pre idb d0 Hf Hd0 Hc Hmax) as Ht.
  cbn zeta. split; [ | split ].
  - intros objects. unfold persistNewState, openWriteTransaction, start.
    rewrite Ht. reflexivity.
  - intros Hmem. unfold persistCachedDatabase, openWriteTransaction, start.
    rewrite Hmem, Ht. reflexivity.
  - intros Hwin. unfold loadDatabase, openWriteTransaction, start, emit.
    cbn [indexedDB trace connections app]. rewrite Hwin, Ht. reflexivity.
Qed.

End Loading.

(** The store ["docs"] is missing from a database that is at the last
    version: nothing is reported. *)
Lemma throwing_reopen_is_silent_witness :
  let env := reliable RequestErrorAborts in
  let self := new_Persistence (datastore [plain "a" []]) in
  let d0 := mkDatabase max_version {[ "other" := [plain "z" []] ]} in
  let idb : gmap string database := {[ "db" := d0 ]} in
  let evs := [EvOpen "db" None; EvClose "db"; EvOpen "db" (Some 9007199254740992%N);
              EvUncaught "TypeError"] in
  (forall objects, persistNewState env self objects (start idb) = mkWorld idb evs [])
  /\ (inMemoryOnly self = false ->
      persistCachedDatabase env self (start idb) = mkWorld idb evs [])
  /\ (window_inMemoryOnly env = false ->
      loadDatabase env self (start idb) = mkWorld idb (EvResetIndexes None :: evs) []).
Proof.
  apply (throwing_reopen_is_silent (reliable RequestErrorAborts)
           (new_Persistence (datastore [plain "a" []]))
           {[ "db" := mkDatabase max_version {[ "other" := [plain "z" []] ]} ]}
           (mkDatabase max_version {[ "other" := [plain "z" []] ]})).
  - split; [ reflexivity | ].
    exists (mkDatabase max_version {[ "other" := [plain "z" []] ]}).
    repeat split; vm_compute; congruence.
  - reflexivity.
Defined.

(** ** Writing and reading back *)

Section Stored.

Variable env : environment.

Lemma opens_transaction (self : Persistence) (idb : gmap string database) :
  opens env self idb = true ->
  exists w1 d t,
    openWriteTransaction env self (start idb) = (w1, Some (inr (d, t)))
    /\ records t = durableRecords self (start idb).
Proof.
  unfold opens, openWriteTransaction.
  pose proof (openTransaction_cases env readwrite self idb) as [_ Hout]. cbn zeta in Hout.
  destruct (openTransaction env readwrite self (start idb)) as [w1 [[err|[d t]]|]];
    cbn [fst snd] in *; try discriminate.
  intros _. exists w1, d, t. split; [ reflexivity | ].
  destruct Hout as [[H _]|[(d' & rs & H & _ & _ & Hdur)|[H _]]]; [ discriminate H | | discriminate H ].
  injection H as _ ->. exact Hdur.
Qed.




(** X8.  Where the store opens, no request fails and the delta holds no
    marker, [persistNewState] leaves in the store the records that were
    there with the delta applied to them in order, a tombstone deleting its
    key and any other document replacing or adding its record; the requests
    are those of the delta, one for each document, and the last thing done is
    the callback with [null]. *)
Theorem persistNewState_writes_delta (self : Persistence) (delta : list doc)
    (idb : gmap string database) :
  opens env self idb = true ->
  forallb (goes_through env) delta = true ->
  let w := persistNewState env self delta (start idb) in
  durableRecords self w = fold_left apply_doc delta (durableRecords self (start idb))
  /\ requests (trace w) = map request_of delta
  /\ last (trace w) = Some (EvCallback None).
Proof.
  intros Hopens Hdelta w.
  destruct (opens_transaction self idb Hopens) as (w1 & d & t & Ht & Hrec).
  destruct (persistNewState_applies_delta env self delta idb w1 d t Ht Hdelta) as (Hreq & Hdur & Hl).
  subst w. rewrite Hdur, Hrec. auto.
Qed.


(** X12.  On a store that holds nothing (a new one in particular) and with
    no request failing, [persistCachedDatabase] converges: the keys stored
    afterwards are the identifiers of the snapshot, and the last thing done
    is the callback with [null]. *)
Theorem persistCachedDatabase_fills_empty_store (self : Persistence)
    (idb : gmap string database) :
  (forall k, put_fails env k = false) -> (forall k, delete_fails env k = false) ->
  inMemoryOnly self = false -> opens env self idb = true ->
  durableRecords self (start idb) = [] ->
  let w := persistCachedDatabase env self (start idb) in
  same_keys (durableKeys self w) (map _id (getAllData (db self)))
  /\ last (trace w) = Some (EvCallback None).
Proof.
  intros Hput Hdel Hmem Hopens Hempty w.
  destruct (opens_transaction self idb Hopens) as (w1 & d & t & Ht & Hrec).
  rewrite Hempty in Hrec. split.
  - eapply persistCachedDatabase_converges_on_empty_store; eauto.
  - eapply persistCachedDatabase_clean; eauto.
Qed.

(** X13.  Where every document of the snapshot is already stored under its
    key and no request fails, [persistCachedDatabase] leaves the store
    empty: no key leaves [keysToDelete], so every stored key is deleted, the
    ones just put among them; the caller is told of success. *)
Theorem persistCachedDatabase_drops_stored_snapshot (self : Persistence)
    (idb : gmap string database) :
  (forall k, put_fails env k = false) -> (forall k, delete_fails env k = false) ->
  inMemoryOnly self = false -> opens env self idb = true ->
  Forall (fun o => In (_id o) (durableKeys self (start idb))) (getAllData (db self)) ->
  let w := persistCachedDatabase env self (start idb) in
  durableRecords self w = [] /\ last (trace w) = Some (EvCallback None).
Proof.
  intros Hput Hdel Hmem Hopens Hstored w.
  destruct (opens_transaction self idb Hopens) as (w1 & d & t & Ht & Hrec).
  unfold durableKeys in Hstored. rewrite <- Hrec in Hstored. split.
  - eapply persistCachedDatabase_empties_store; eauto.
  - eapply persistCachedDatabase_clean; eauto.
Qed.

End Stored.

(** X14.  What [putReq.onsuccess] does to [keysToDelete]: where the key
    of the document is in the list, nothing; where it is not, the last
    element of the list is removed ([indexOf] gives -1 and [splice(-1, 1)]
    counts from the end). *)
Theorem putReq_onsuccess_cases (o : doc) (keysToDelete : list string) :
  putReq_onsuccess o keysToDelete
  = if existsb (String.eqb (_id o)) keysToDelete then keysToDelete
    else removelast keysToDelete.
Proof.
  destruct (existsb (String.eqb (_id o)) keysToDelete) eqn:Hex.
  - apply putReq_onsuccess_present. apply existsb_exists in Hex.
    destruct Hex as (k & Hk & Heq). apply String.eqb_eq in Heq. subst k. exact Hk.
  - apply putReq_onsuccess_absent. intros Hin.
    assert (existsb (String.eqb (_id o)) keysToDelete = true); [ | congruence ].
    apply existsb_exists. exists (_id o). split; [ exact Hin | apply String.eqb_refl ].
Qed.




Section DeleteSeries.

Variable env : environment.






End DeleteSeries.

(** ** The end of a transaction *)

Lemma transaction_error_not_put_error (x k : string) :
  "Error persisting cached data: " ++ x <> put_error k
  /\ "Error persisting cached data:" ++ x <> put_error k.
Proof. unfold put_error. cbn [append]. split; discriminate. Qed.

Section Settling.

Variable env : environment.

Lemma unsettled_deliver t :
  unsettled env t ->
  policy env = RequestErrorAborts
  \/ error (deliver env t) = None /\ bubbling (deliver env t) = false.
Proof.
  intros [[_ Hp]|[He Hb]]; [ left; exact Hp | right ].
  unfold deliver. rewrite Hb. auto.
Qed.

Lemma unsettled_store_put o t : unsettled env t -> unsettled env (fst (store_put env o t)).
Proof.
  intros H. apply unsettled_deliver in H. unfold store_put.
  destruct (bool_decide (is_Some (error (deliver env t))) || put_fails env (_id o)) eqn:Hf;
    cbn [fst]; unfold unsettled, fail_request; cbn [bubbling error].
  - destruct H as [Hp|[He Hb]]; [ rewrite Hp; auto | ].
    destruct (policy env); auto.
  - apply orb_false_iff in Hf. destruct Hf as [Hf _].
    apply bool_decide_eq_false in Hf.
    destruct (error (deliver env t)) eqn:He; [ exfalso; apply Hf; eauto | ].
    destruct H as [Hp|[_ Hb]]; [ | auto ].
    destruct (bubbling (deliver env t)); auto.
Qed.

Lemma unsettled_store_delete k t : unsettled env t -> unsettled env (fst (store_delete env k t)).
Proof.
  intros H. apply unsettled_deliver in H. unfold store_delete.
  destruct (bool_decide (is_Some (error (deliver env t))) || delete_fails env k) eqn:Hf;
    cbn [fst]; unfold unsettled, fail_request; cbn [bubbling error].
  - destruct H as [Hp|[He Hb]]; [ rewrite Hp; auto | ].
    destruct (policy env); auto.
  - apply orb_false_iff in Hf. destruct Hf as [Hf _].
    apply bool_decide_eq_false in Hf.
    destruct (error (deliver env t)) eqn:He; [ exfalso; apply Hf; eauto | ].
    destruct H as [Hp|[_ Hb]]; [ | auto ].
    destruct (bubbling (deliver env t)); auto.
Qed.

Lemma unsettled_put_series objects t keys :
  unsettled env t -> unsettled env (fst (fst (eachSeries objects (put_iterator env) (t, keys)))).
Proof.
  revert t keys. induction objects as [|o objects IH]; intros t keys H; [ exact H | ].
  cbn [eachSeries]. unfold put_iterator at 1.
  pose proof (unsettled_store_put o t H) as H1.
  destruct (store_put env o t) as [t1 [|]]; cbn [fst] in *; [ apply IH | ]; exact H1.
Qed.

Lemma unsettled_delete_series keys t :
  unsettled env t -> unsettled env (fst (eachSeries keys (delete_iterator env) t)).
Proof.
  revert t. induction keys as [|k keys IH]; intros t H; [ exact H | ].
  cbn [eachSeries]. unfold delete_iterator at 1.
  pose proof (unsettled_store_delete k t H) as H1.
  destruct (store_delete env k t) as [t1 [|]]; cbn [fst] in *; [ apply IH | ]; exact H1.
Qed.

Lemma unsettled_cursor_done objects t keys :
  unsettled env t -> unsettled env (fst (cursor_done env objects t keys)).
Proof.
  intros H. unfold cursor_done.
  pose proof (unsettled_put_series objects t keys H) as H1.
  destruct (eachSeries objects (put_iterator env) (t, keys)) as [[t1 keys1] [err1|]];
    cbn [fst] in *; [ | exact H1 ].
  assert (H1' : unsettled env (match err1 with
                               | Some e => note [EvCallback (Some e)] t1
                               | None => t1
                               end)) by (destruct err1; exact H1).
  pose proof (unsettled_delete_series keys1 _ H1') as H2.
  destruct (eachSeries keys1 (delete_iterator env) _) as [t2 [[e2|]|]]; exact H2.
Qed.

Lemma unsettled_persistNewState_series objects t :
  unsettled env t -> unsettled env (fst (eachSeries objects (persistNewState_iterator env) t)).
Proof.
  revert t. induction objects as [|o objects IH]; intros t H; [ exact H | ].
  cbn [eachSeries]. unfold persistNewState_iterator at 1.
  destruct (deleted o).
  - pose proof (unsettled_store_delete (_id o) t H) as H1.
    destruct (store_delete env (_id o) t) as [t1 [|]]; cbn [fst] in *; [ apply IH | ]; exact H1.
  - destruct (negb (indexCreated o) && negb (indexRemoved o)); [ | exact H ].
    pose proof (unsettled_store_put o t H) as H1.
    destruct (store_put env o t) as [t1 [|]]; cbn [fst] in *; [ apply IH | ]; exact H1.
Qed.

(** An unsettled transaction ends with one of its two handlers. *)
Lemma settle_unsettled t :
  unsettled env t ->
  log (settle env t)
  = (log t ++ (if bubbling t then onerror t (error t) else oncomplete t))%list.
Proof.
  intros [[Hb _]|[He Hb]]; unfold settle, deliver; rewrite Hb; cbn [error]; [ reflexivity | ].
  rewrite He. reflexivity.
Qed.

Lemma settle_calls_back t :
  unsettled env t -> (forall x, calls_back (onerror t x)) -> calls_back (oncomplete t) ->
  exists l x, log (settle env t) = ((log t ++ l) ++ [EvCallback x])%list.
Proof.
  intros H Herr Hcomp. rewrite (settle_unsettled t H).
  destruct (bubbling t).
  - destruct (Herr (error t)) as (l & x & ->). exists l, x. apply List.app_assoc.
  - destruct Hcomp as (l & x & ->). exists l, x. apply List.app_assoc.
Qed.

Lemma last_calls_back (l : list event) (x : option string) :
  exists y, last (l ++ [EvCallback x]) = Some (EvCallback y).
Proof. exists x. apply last_snoc. Qed.

(** X16.  Unless the second opening throws, the last thing each of
    [persistCachedDatabase], [loadDatabase] and [persistNewState] does is to
    call the caller's callback, whether the engine fails the opening, fails
    a request or lets all go well.  (The keys of the documents are strings,
    which [store.put] and [store.delete] accept.) *)
Theorem operations_call_back_last (self : Persistence) (idb : gmap string database) :
  ~ opening_throws env self idb ->
  (exists x, last (trace (persistCachedDatabase env self (start idb))) = Some (EvCallback x))
  /\ (exists x, last (trace (loadDatabase env self (start idb))) = Some (EvCallback x))
  /\ forall objects,
       exists x, last (trace (persistNewState env self objects (start idb)))
                 = Some (EvCallback x).
Proof.
  intros Hnt.
  pose proof (openTransaction_cases env readwrite self idb) as [_ Hout]. cbn zeta in Hout.
  split; [ | split ].
  - unfold persistCachedDatabase, openWriteTransaction.
    destruct (inMemoryOnly self); [ exists None; reflexivity | ].
    destruct (openTransaction env readwrite self (start idb)) as [w1 [[err|[d t]]|]];
      cbn [fst snd] in Hout.
    + apply last_calls_back.
    + destruct Hout as [[H _]|[(d' & rs & H & _)|[H _]]]; [ discriminate H | | discriminate H ].
      injection H as _ ->.
      cbn [store_openCursor records set_oncomplete set_onerror]. rewrite finish_trace.
      set (h := fun e : option string =>
                  [EvCallback (Some ("Error persisting cached data:" ++ js_string e))]).
      set (t0 := note [EvOpenCursor] _).
      assert (Hcb : forall e, from_handler t0 e -> is_callback e = true).
      { intros e [x [<-|[]]]. reflexivity. }
      destruct (cursor_done_shape env (getAllData (db self)) t0 (map _id rs) Hcb)
        as (evs & (_ & Hh & Hc) & _).
      destruct (settle_calls_back (fst (cursor_done env (getAllData (db self)) t0 (map _id rs))))
        as (l & x & ->).
      * apply unsettled_cursor_done. right. split; reflexivity.
      * intros x. rewrite Hh. exists [], (Some ("Error persisting cached data:" ++ js_string x)).
        reflexivity.
      * rewrite Hc. exists [], None. reflexivity.
      * apply last_calls_back.
    + exfalso. destruct Hout as [[H _]|[(? & ? & H & _)|(_ & _ & H & _)]];
        [ discriminate H | discriminate H | exact (Hnt H) ].
  - destruct (window_inMemoryOnly env) eqn:Hw.
    + unfold loadDatabase. rewrite Hw. exists None. reflexivity.
    + destruct (loadDatabase_cases env self idb Hw)
        as [[_ ->]|[(d & t & _ & _ & _ & ->)|(_ & H & _)]];
        [ | | exfalso; exact (Hnt H) ]; cbn [trace]; eexists.
      * rewrite app_comm_cons. apply last_snoc.
      * rewrite app_comm_cons.
        change [EvTransaction (storeName self) readwrite; EvOpenCursor;
                EvResetIndexes (Some (durableRecords self (start idb)));
                EvProcessBuffer; EvCallback None]
          with ([EvTransaction (storeName self) readwrite; EvOpenCursor;
                 EvResetIndexes (Some (durableRecords self (start idb)));
                 EvProcessBuffer] ++ [EvCallback None])%list.
        rewrite List.app_assoc. apply last_snoc.
  - intros objects. unfold persistNewState, openWriteTransaction.
    destruct (openTransaction env readwrite self (start idb)) as [w1 [[err|[d t]]|]];
      cbn [fst snd] in Hout.
    + apply last_calls_back.
    + destruct Hout as [[H _]|[(d' & rs & H & _)|[H _]]]; [ discriminate H | | discriminate H ].
      injection H as _ ->. rewrite finish_trace, persistNewState_series_None.
      set (h := fun e : option string =>
                  [EvCallback (Some ("Error persisting cached data: " ++ js_string e))]).
      set (t0 := set_oncomplete _ (set_onerror h _)).
      assert (Hcb : forall e, from_handler t0 e -> is_callback e = true).
      { intros e [x [<-|[]]]. reflexivity. }
      destruct (persistNewState_series_shape env objects t0 Hcb) as (evs & (_ & Hh & Hc) & _).
      destruct (settle_calls_back (fst (eachSeries objects (persistNewState_iterator env) t0)))
        as (l & x & ->).
      * apply unsettled_persistNewState_series. right. split; reflexivity.
      * intros x. rewrite Hh. exists [], (Some ("Error persisting cached data: " ++ js_string x)).
        reflexivity.
      * rewrite Hc. exists [], None. reflexivity.
      * apply last_calls_back.
    + exfalso. destruct Hout as [[H _]|[(? & ? & H & _)|(_ & _ & H & _)]];
        [ discriminate H | discriminate H | exact (Hnt H) ].
Qed.

(** X17.  In [persistCachedDatabase] a failed put makes the code call the
    caller's callback more than once: with the error of the put (after
    which, there being no [return], the delete series still runs), and
    again as the last thing of the run, from the transaction's handler. *)
Theorem persistCachedDatabase_put_error_calls_back_twice (self : Persistence)
    (idb : gmap string database) (k : string) :
  let tr := trace (persistCachedDatabase env self (start idb)) in
  In (EvPut k false) tr ->
  exists before x,
    tr = (before ++ [EvCallback x])%list /\ In (EvCallback (Some (put_error k))) before.
Proof.
  intros tr. subst tr. unfold persistCachedDatabase, openWriteTransaction.
  destruct (inMemoryOnly self).
  { intros [H|[]]. discriminate H. }
  pose proof (openTransaction_trace env readwrite self idb) as Hopen.
  rewrite Forall_forall in Hopen.
  pose proof (openTransaction_cases env readwrite self idb) as [_ Hout]. cbn zeta in Hout.
  destruct (openTransaction env readwrite self (start idb)) as [w1 [[err|[d t]]|]];
    cbn [fst snd] in Hout, Hopen.
  - cbn [emit trace]. intros Hin. exfalso. apply in_app_iff in Hin.
    destruct Hin as [Hin|[Hin|[]]]; [ | discriminate Hin ].
    apply list_elem_of_In, Hopen in Hin. discriminate Hin.
  - destruct Hout as [[H _]|[(d' & rs & H & _)|[H _]]]; [ discriminate H | | discriminate H ].
    injection H as _ ->.
    cbn [store_openCursor records set_oncomplete set_onerror]. rewrite finish_trace.
    set (h := fun e : option string =>
                [EvCallback (Some ("Error persisting cached data:" ++ js_string e))]).
    set (t0 := note [EvOpenCursor] _).
    assert (Hcb : forall e, from_handler t0 e -> is_callback e = true).
    { intros e [x [<-|[]]]. reflexivity. }
    destruct (cursor_done_shape env (getAllData (db self)) t0 (map _id rs) Hcb)
      as (evs & (Hlog & Hh & Hc) & _ & Hput & _).
    set (t1 := fst (cursor_done env (getAllData (db self)) t0 (map _id rs))) in *.
    assert (Hs : exists x, log (settle env t1) = (log t1 ++ [EvCallback x])%list).
    { rewrite settle_unsettled
        by (apply unsettled_cursor_done; right; split; reflexivity).
      rewrite Hh, Hc. destruct (bubbling t1); eexists; reflexivity. }
    destruct Hs as (x & ->). intros Hin. exists (log t1), x. split; [ reflexivity | ].
    rewrite Hlog in *. apply in_app_iff. right. apply Hput.
    cbn [t0 note set_oncomplete set_onerror log] in Hin. rewrite !in_app_iff in Hin.
    cbn [In] in Hin.
    destruct Hin as [[[[Hin|[Hin|[]]]|[Hin|[]]]|Hin]|[Hin|[]]]; try discriminate Hin;
      [ | exact Hin ].
    apply list_elem_of_In, Hopen in Hin. discriminate Hin.
  - intros Hin. exfalso. apply list_elem_of_In, Hopen in Hin. discriminate Hin.
Qed.

(** X11.  [persistNewState] never writes to the console, and the only
    errors it passes to the callback are the one of the opening and the one
    of the transaction: the message built for a failed put or delete goes to
    the series' final callback, which takes no argument, and is never
    reported. *)
Theorem persistNewState_reports (self : Persistence) (objects : list doc)
    (idb : gmap string database) :
  let tr := trace (persistNewState env self objects (start idb)) in
  (forall msg, ~ In (EvConsoleError msg) tr)
  /\ (forall msg, In (EvCallback (Some msg)) tr ->
        msg = "Error opening IndexedDB"
        \/ exists x, msg = "Error persisting cached data: " ++ js_string x)
  /\ forall k, ~ In (EvCallback (Some (put_error k))) tr
               /\ ~ In (EvCallback (Some (delete_error k))) tr.
Proof.
  intros tr.
  assert (Hev : forall e, In e tr ->
            is_opening e = true \/ is_request e = true
            \/ e = EvTransaction (storeName self) readwrite \/ e = EvCallback None
            \/ e = EvCallback (Some "Error opening IndexedDB")
            \/ exists x, e = EvCallback (Some ("Error persisting cached data: " ++ js_string x))).
  { subst tr. unfold persistNewState, openWriteTransaction.
    pose proof (openTransaction_trace env readwrite self idb) as Hopen.
    rewrite Forall_forall in Hopen.
    pose proof (openTransaction_cases env readwrite self idb) as [_ Hout]. cbn zeta in Hout.
    destruct (openTransaction env readwrite self (start idb)) as [w1 [[err|[d t]]|]];
      cbn [fst snd] in Hout, Hopen.
    - destruct Hout as [[H _]|[(? & ? & H & _)|[H _]]]; [ | discriminate H | discriminate H ].
      injection H as ->. cbn [emit trace]. intros e Hin. apply in_app_iff in Hin.
      destruct Hin as [Hin|[<-|[]]]; [ left; apply Hopen, list_elem_of_In, Hin | auto 10 ].
    - destruct Hout as [[H _]|[(d' & rs & H & _)|[H _]]]; [ discriminate H | | discriminate H ].
      injection H as _ ->. rewrite finish_trace, persistNewState_series_None.
      set (h := fun e : option string =>
                  [EvCallback (Some ("Error persisting cached data: " ++ js_string e))]).
      set (t0 := set_oncomplete _ (set_onerror h _)).
      assert (Hh : forall e, from_handler t0 e ->
                   exists x, e = EvCallback (Some ("Error persisting cached data: " ++ js_string x))).
      { intros e [x [Hx|[]]]. exists x. auto. }
      assert (Hcb : forall e, from_handler t0 e -> is_callback e = true).
      { intros e He. destruct (Hh e He) as [x ->]. reflexivity. }
      destruct (persistNewState_series_shape env objects t0 Hcb) as (evs & Hext & Hall & _).
      set (t1 := fst (eachSeries objects (persistNewState_iterator env) t0)) in *.
      destruct (settle_extends env t1) as (evs' & Hext' & Hall').
      destruct (extends_trans _ _ _ _ _ Hext Hext') as (Hlog & _ & _).
      rewrite Hlog. cbn [t0 set_oncomplete set_onerror log].
      rewrite Forall_forall in Hall, Hall'.
      intros e Hin. rewrite !in_app_iff in Hin. cbn [In] in Hin.
      destruct Hin as [[Hin|[<-|[]]]|[Hin|Hin]].
      + left. apply Hopen, list_elem_of_In, Hin.
      + auto 10.
      + apply list_elem_of_In, Hall in Hin. destruct Hin as [Hin|[Hin| -> ]].
        * do 5 right. apply Hh, Hin.
        * auto.
        * left. reflexivity.
      + apply list_elem_of_In, Hall' in Hin. destruct Hin as [Hin|Hin].
        * do 5 right. apply Hh. eapply from_handler_extends; eauto.
        * destruct Hext as (_ & _ & Hc). rewrite Hc in Hin. destruct Hin as [<-|[]]. auto 10.
    - intros e Hin. left. apply Hopen, list_elem_of_In, Hin. }
  assert (Hmsg : forall msg, In (EvCallback (Some msg)) tr ->
            msg = "Error opening IndexedDB"
            \/ exists x, msg = "Error persisting cached data: " ++ js_string x).
  { intros msg Hin. apply Hev in Hin.
    destruct Hin as [H|[H|[H|[H|[H|[x H]]]]]]; try discriminate H.
    - left. congruence.
    - right. exists x. congruence. }
  split; [ | split; [ exact Hmsg | ] ].
  - intros msg Hin. apply Hev in Hin.
    destruct Hin as [H|[H|[H|[H|[H|[x H]]]]]]; discriminate H.
  - intros k. split; intros Hin; apply Hmsg in Hin; destruct Hin as [H|[x H]].
    + unfold put_error in H. cbn [append] in H. discriminate H.
    + symmetry in H. apply (proj1 (transaction_error_not_put_error _ _)) in H. exact H.
    + unfold delete_error in H. cbn [append] in H. discriminate H.
    + symmetry in H. apply (proj1 (transaction_error_not_delete_error _ _)) in H. exact H.
Qed.

Lemma persistNewState_iterator_marker (m : doc) (t : transaction) :
  deleted m = false -> indexCreated m || indexRemoved m = true ->
  persistNewState_iterator env m t = (t, Silent).
Proof.
  intros Hdel Hm. unfold persistNewState_iterator. rewrite Hdel.
  destruct (indexCreated m), (indexRemoved m); try reflexivity; discriminate Hm.
Qed.

(** X10.  In [persistNewState] a metadata marker ends the batch without a
    word: when the store opens and the documents before the marker go
    through, they are the only ones written, whatever follows the marker,
    and the caller is told of success. *)
Theorem persistNewState_marker_ends_batch (self : Persistence) (pre : list doc) (m : doc)
    (post : list doc) (idb : gmap string database) :
  opens env self idb = true ->
  forallb (goes_through env) pre = true ->
  deleted m = false -> indexCreated m || indexRemoved m = true ->
  let w := persistNewState env self (pre ++ m :: post) (start idb) in
  requests (trace w) = map request_of pre
  /\ durableRecords self w = fold_left apply_doc pre (durableRecords self (start idb))
  /\ last (trace w) = Some (EvCallback None).
Proof.
  intros Hopens Hpre Hdel Hm w. subst w.
  destruct (opens_transaction env self idb Hopens) as (w1 & d & t & Ht & Hrec).
  unfold persistNewState. rewrite Ht.
  pose proof (opening_requests env readwrite self idb) as Hreq.
  unfold openWriteTransaction in Ht. rewrite Ht in Hreq. cbn [fst] in Hreq.
  destruct (openTransaction_success env _ _ _ _ _ _ Ht) as (rs & Hrs & ->).
  cbn [records] in Hrec.
  rewrite persistNewState_series_None.
  unfold set_oncomplete, set_onerror.
  cbn [records error bubbling onerror oncomplete log].
  erewrite eachSeries_app by (apply persistNewState_clean_prefix; exact Hpre).
  cbn [eachSeries]. rewrite (persistNewState_iterator_marker m _ Hdel Hm).
  cbn [fst]. unfold finish, settle, deliver, note.
  cbn [records error bubbling onerror oncomplete log trace].
  split; [ | split ].
  - rewrite !requests_app, Hreq, requests_map_request_of.
    cbn [requests List.filter is_request app]. rewrite app_nil_r. reflexivity.
  - rewrite <- Hrec. unfold durableRecords. cbn [indexedDB]. rewrite lookup_insert_eq.
    cbn [objectStores]. rewrite lookup_insert_eq. reflexivity.
  - apply last_snoc.
Qed.

End Settling.

(** ** Engines that abort the transaction of a failed request *)

Section Aborting.

Variable env : environment.
Hypothesis aborts : policy env = RequestErrorAborts.

Lemma store_put_aborts o t :
  bubbling t = true \/ clean t ->
  bubbling (fst (store_put env o t)) = true
  \/ clean (fst (store_put env o t))
     /\ log (fst (store_put env o t)) = (log t ++ [EvPut (_id o) true])%list.
Proof.
  unfold store_put, deliver, clean. intros [Hb|[He Hb]]; rewrite Hb; cbn [error].
  - rewrite bool_decide_eq_true_2 by eauto. cbn [orb fst fail_request bubbling].
    rewrite aborts. left. reflexivity.
  - rewrite He. rewrite bool_decide_eq_false_2 by (intros [? ?]; discriminate).
    cbn [orb]. destruct (put_fails env (_id o)); cbn [fst fail_request bubbling error log].
    + rewrite aborts. left. reflexivity.
    + right. auto.
Qed.

Lemma store_delete_aborts k t :
  bubbling t = true \/ clean t ->
  bubbling (fst (store_delete env k t)) = true
  \/ clean (fst (store_delete env k t))
     /\ log (fst (store_delete env k t)) = (log t ++ [EvDelete k true])%list.
Proof.
  unfold store_delete, deliver, clean. intros [Hb|[He Hb]]; rewrite Hb; cbn [error].
  - rewrite bool_decide_eq_true_2 by eauto. cbn [orb fst fail_request bubbling].
    rewrite aborts. left. reflexivity.
  - rewrite He. rewrite bool_decide_eq_false_2 by (intros [? ?]; discriminate).
    cbn [orb]. destruct (delete_fails env k); cbn [fst fail_request bubbling error log].
    + rewrite aborts. left. reflexivity.
    + right. auto.
Qed.

Lemma aborts_refl t : aborts_or_clean t t.
Proof.
  split; [ auto | ]. intros H. right. split; [ exact H | ].
  exists []. rewrite app_nil_r. auto.
Qed.

Lemma aborts_trans t t1 t2 :
  aborts_or_clean t t1 -> aborts_or_clean t1 t2 -> aborts_or_clean t t2.
Proof.
  intros [Hb1 Hc1] [Hb2 Hc2]. split; [ auto | ].
  intros Hc. destruct (Hc1 Hc) as [H1|(H1 & evs1 & Hl1 & Hall1)]; [ left; auto | ].
  destruct (Hc2 H1) as [H2|(H2 & evs2 & Hl2 & Hall2)]; [ left; exact H2 | right ].
  split; [ exact H2 | ]. exists (evs1 ++ evs2)%list.
  rewrite Hl2, Hl1, <- List.app_assoc. split; [ reflexivity | ].
  apply Forall_app. auto.
Qed.

Lemma aborts_note es t :
  Forall (fun e => is_failure e = false) es -> aborts_or_clean t (note es t).
Proof.
  intros Hes. split; [ auto | ]. intros H. right. split; [ exact H | ].
  exists es. auto.
Qed.

Lemma aborts_store_put o t : aborts_or_clean t (fst (store_put env o t)).
Proof.
  split.
  - intros Hb. destruct (store_put_aborts o t (or_introl Hb)) as [H|[[_ H] _]]; [ exact H | ].
    unfold store_put, deliver in H |- *. rewrite Hb in H |- *. cbn [error] in H |- *.
    rewrite bool_decide_eq_true_2 in H |- * by eauto. cbn [orb fst fail_request bubbling].
    rewrite aborts. reflexivity.
  - intros Hc. destruct (store_put_aborts o t (or_intror Hc)) as [H|[H Hl]]; [ left; exact H | ].
    right. split; [ exact H | ]. exists [EvPut (_id o) true]. split; [ exact Hl | ].
    repeat constructor.
Qed.

Lemma aborts_store_delete k t : aborts_or_clean t (fst (store_delete env k t)).
Proof.
  split.
  - intros Hb. destruct (store_delete_aborts k t (or_introl Hb)) as [H|[[_ H] _]]; [ exact H | ].
    unfold store_delete, deliver in H |- *. rewrite Hb in H |- *. cbn [error] in H |- *.
    rewrite bool_decide_eq_true_2 in H |- * by eauto. cbn [orb fst fail_request bubbling].
    rewrite aborts. reflexivity.
  - intros Hc. destruct (store_delete_aborts k t (or_intror Hc)) as [H|[H Hl]]; [ left; exact H | ].
    right. split; [ exact H | ]. exists [EvDelete k true]. split; [ exact Hl | ].
    repeat constructor.
Qed.

Lemma aborts_put_series objects t keys :
  aborts_or_clean t (fst (fst (eachSeries objects (put_iterator env) (t, keys)))).
Proof.
  revert t keys. induction objects as [|o objects IH]; intros t keys; [ apply aborts_refl | ].
  cbn [eachSeries]. unfold put_iterator at 1.
  pose proof (aborts_store_put o t) as H1.
  destruct (store_put env o t) as [t1 [|]]; cbn [fst] in *; [ | exact H1 ].
  eapply aborts_trans; [ exact H1 | apply IH ].
Qed.

Lemma aborts_delete_series keys t :
  aborts_or_clean t (fst (eachSeries keys (delete_iterator env) t)).
Proof.
  revert t. induction keys as [|k keys IH]; intros t; [ apply aborts_refl | ].
  cbn [eachSeries]. unfold delete_iterator at 1.
  pose proof (aborts_store_delete k t) as H1.
  destruct (store_delete env k t) as [t1 [|]]; cbn [fst] in *; [ | exact H1 ].
  eapply aborts_trans; [ exact H1 | apply IH ].
Qed.

Lemma aborts_cursor_done objects t keys :
  aborts_or_clean t (fst (cursor_done env objects t keys)).
Proof.
  unfold cursor_done.
  pose proof (aborts_put_series objects t keys) as H1.
  destruct (eachSeries objects (put_iterator env) (t, keys)) as [[t1 keys1] [err1|]];
    cbn [fst] in *; [ | exact H1 ].
  assert (H1' : aborts_or_clean t (match err1 with
                                   | Some e => note [EvCallback (Some e)] t1
                                   | None => t1
                                   end)).
  { destruct err1; [ | exact H1 ].
    eapply aborts_trans; [ exact H1 | apply aborts_note; repeat constructor ]. }
  pose proof (aborts_delete_series keys1
                (match err1 with Some e => note [EvCallback (Some e)] t1 | None => t1 end))
    as H2.
  destruct (eachSeries keys1 (delete_iterator env) _) as [t2 [[e2|]|]]; cbn [fst] in *.
  - eapply aborts_trans; [ exact H1' | ].
    eapply aborts_trans; [ exact H2 | apply aborts_note; repeat constructor ].
  - eapply aborts_trans; eassumption.
  - eapply aborts_trans; eassumption.
Qed.

Lemma aborts_persistNewState_series objects t :
  aborts_or_clean t (fst (eachSeries objects (persistNewState_iterator env) t)).
Proof.
  revert t. induction objects as [|o objects IH]; intros t; [ apply aborts_refl | ].
  cbn [eachSeries]. unfold persistNewState_iterator at 1.
  destruct (deleted o).
  - pose proof (aborts_store_delete (_id o) t) as H1.
    destruct (store_delete env (_id o) t) as [t1 [|]]; cbn [fst] in *.
    + eapply aborts_trans; [ exact H1 | apply IH ].
    + eapply aborts_trans; [ exact H1 | apply aborts_note; repeat constructor ].
  - destruct (negb (indexCreated o) && negb (indexRemoved o)); [ | apply aborts_refl ].
    pose proof (aborts_store_put o t) as H1.
    destruct (store_put env o t) as [t1 [|]]; cbn [fst] in *; [ | exact H1 ].
    eapply aborts_trans; [ exact H1 | apply IH ].
Qed.

(** The end of a transaction in which a request failed: the engine is as it
    was and the completion handler does not run. *)
Lemma finish_aborted (n s : string) (d : database) (w : world) (t0 t : transaction)
    (l : list event) :
  clean t0 -> log t0 = l -> aborts_or_clean t0 t ->
  (exists e, is_failure e = true /\ In e (trace (finish env n s d w t))) ->
  Forall (fun e => is_failure e = false) l ->
  Forall (fun e => is_failure e = false) (oncomplete t) ->
  indexedDB (finish env n s d w t) = indexedDB w
  /\ trace (finish env n s d w t) = (log t ++ onerror t (error t))%list.
Proof.
  intros Hc0 Hl [_ H] (e & He & Hin) Hnl Hnc.
  destruct (H Hc0) as [Hb|([Herr Hb] & evs & Hlog & Hall)].
  - unfold finish, settle, deliver. rewrite Hb. cbn [error log]. auto.
  - exfalso.
    rewrite finish_trace, (settle_unsettled env t (or_intror (conj Herr Hb))), Hb in Hin.
    rewrite Hlog, Hl in Hin. rewrite !in_app_iff in Hin.
    rewrite Forall_forall in Hnl, Hall, Hnc.
    destruct Hin as [[Hin|Hin]|Hin]; apply list_elem_of_In in Hin;
      [ apply Hnl in Hin | apply Hall in Hin | apply Hnc in Hin ]; congruence.
Qed.

Lemma opening_no_failure (m : mode) (self : Persistence) (idb : gmap string database) :
  Forall (fun e => is_failure e = false)
         (trace (fst (openTransaction env m self (start idb)))).
Proof.
  eapply Forall_impl; [ apply (openTransaction_trace env) | ].
  intros [] He; try discriminate He; reflexivity.
Qed.

Lemma opened_records (self : Persistence) (idb : gmap string database) (w1 : world)
    (d : database) (rs : list doc) :
  indexedDB w1 !! dbName self = Some d -> objectStores d !! storeName self = Some rs ->
  rs = durableRecords self (start idb) ->
  forall w, indexedDB w = indexedDB w1 -> durableRecords self w = durableRecords self (start idb).
Proof.
  intros Hd Hrs Hdur w Hw. unfold durableRecords at 1. rewrite Hw, Hd, Hrs. exact Hdur.
Qed.

(** X18.  [persistNewState] on an engine that aborts the transaction of a
    failed request is all or nothing: if a put or a delete failed, the
    store holds afterwards what it held before, whatever was written before
    the failure, and the callback is not called with [null]. *)
Theorem persistNewState_failure_rolls_back (self : Persistence) (objects : list doc)
    (idb : gmap string database) :
  let w := persistNewState env self objects (start idb) in
  (exists e, is_failure e = true /\ In e (trace w)) ->
  durableRecords self w = durableRecords self (start idb)
  /\ ~ In (EvCallback None) (trace w).
Proof.
  intros w. subst w. unfold persistNewState, openWriteTransaction.
  pose proof (opening_no_failure readwrite self idb) as Hopen.
  pose proof (openTransaction_cases env readwrite self idb) as [_ Hout]. cbn zeta in Hout.
  destruct (openTransaction env readwrite self (start idb)) as [w1 [[err|[d t]]|]] eqn:Hw1;
    cbn [fst snd] in Hout, Hopen.
  - intros (e & He & Hin). exfalso. cbn [emit trace] in Hin. apply in_app_iff in Hin.
    rewrite Forall_forall in Hopen.
    destruct Hin as [Hin|[<-|[]]]; [ | discriminate He ].
    apply list_elem_of_In, Hopen in Hin. congruence.
  - destruct Hout as [[H _]|[(d' & rs & H & Hd & Hrs & Hdur)|[H _]]]; [ discriminate H | | discriminate H ].
    injection H as <- ->. rewrite persistNewState_series_None.
    set (h := fun e : option string =>
                [EvCallback (Some ("Error persisting cached data: " ++ js_string e))]).
    set (t0 := set_oncomplete _ (set_onerror h _)).
    assert (Hcb : forall e, from_handler t0 e -> is_callback e = true).
    { intros e [x [<-|[]]]. reflexivity. }
    destruct (persistNewState_series_shape env objects t0 Hcb)
      as (evs & (Hlog & Hh & Hc) & Hall & _).
    set (t1 := fst (eachSeries objects (persistNewState_iterator env) t0)) in *.
    intros Hfail.
    destruct (finish_aborted (dbName self) (storeName self) d w1 t0 t1
                (trace w1 ++ [EvTransaction (storeName self) readwrite])%list)
      as [Hidb Htr].
    + split; reflexivity.
    + reflexivity.
    + apply aborts_persistNewState_series.
    + exact Hfail.
    + apply Forall_app. split; [ exact Hopen | repeat constructor ].
    + rewrite Hc. repeat constructor.
    + split; [ exact (opened_records self idb w1 d rs Hd Hrs Hdur _ Hidb) | ].
      rewrite Htr, Hlog, Hh. cbn [t0 set_oncomplete set_onerror log]. unfold h.
      rewrite !in_app_iff. cbn [In].
      pose proof (openTransaction_trace env readwrite self idb) as Hop.
      rewrite Hw1 in Hop. cbn [fst] in Hop. rewrite Forall_forall in Hop, Hall.
      intros [[[Hin|[Hin|[]]]|Hin]|[Hin|[]]]; try discriminate Hin.
      * apply list_elem_of_In, Hop in Hin. discriminate Hin.
      * apply list_elem_of_In, Hall in Hin. destruct Hin as [Hin|[Hin|Hin]];
          [ destruct Hin as [x [Hx|[]]] | | ]; discriminate.
  - intros (e & He & Hin). exfalso. rewrite Forall_forall in Hopen.
    apply list_elem_of_In, Hopen in Hin. congruence.
Qed.

(** X19.  So is [persistCachedDatabase]: on an engine that aborts the
    transaction of a failed request, if a put or a delete failed, the store
    holds afterwards what it held before and the callback is not called with
    [null]. *)
Theorem persistCachedDatabase_failure_rolls_back (self : Persistence)
    (idb : gmap string database) :
  let w := persistCachedDatabase env self (start idb) in
  (exists e, is_failure e = true /\ In e (trace w)) ->
  durableRecords self w = durableRecords self (start idb)
  /\ ~ In (EvCallback None) (trace w).
Proof.
  intros w. subst w. unfold persistCachedDatabase, openWriteTransaction.
  destruct (inMemoryOnly self).
  { intros (e & He & [<-|[]]). discriminate He. }
  pose proof (opening_no_failure readwrite self idb) as Hopen.
  pose proof (openTransaction_cases env readwrite self idb) as [_ Hout]. cbn zeta in Hout.
  destruct (openTransaction env readwrite self (start idb)) as [w1 [[err|[d t]]|]] eqn:Hw1;
    cbn [fst snd] in Hout, Hopen.
  - intros (e & He & Hin). exfalso. cbn [emit trace] in Hin. apply in_app_iff in Hin.
    rewrite Forall_forall in Hopen.
    destruct Hin as [Hin|[<-|[]]]; [ | discriminate He ].
    apply list_elem_of_In, Hopen in Hin. congruence.
  - destruct Hout as [[H _]|[(d' & rs & H & Hd & Hrs & Hdur)|[H _]]]; [ discriminate H | | discriminate H ].
    injection H as <- ->.
    cbn [store_openCursor records set_oncomplete set_onerror].
    set (h := fun e : option string =>
                [EvCallback (Some ("Error persisting cached data:" ++ js_string e))]).
    set (t0 := note [EvOpenCursor] _).
    assert (Hcb : forall e, from_handler t0 e -> is_callback e = true).
    { intros e [x [<-|[]]]. reflexivity. }
    destruct (cursor_done_shape env (getAllData (db self)) t0 (map _id rs) Hcb)
      as (evs & (Hlog & Hh & Hc) & Hall & _).
    set (t1 := fst (cursor_done env (getAllData (db self)) t0 (map _id rs))) in *.
    intros Hfail.
    destruct (finish_aborted (dbName self) (storeName self) d w1 t0 t1
                ((trace w1 ++ [EvTransaction (storeName self) readwrite]) ++ [EvOpenCursor])%list)
      as [Hidb Htr].
    + split; reflexivity.
    + reflexivity.
    + apply aborts_cursor_done.
    + exact Hfail.
    + apply Forall_app. split; [ | repeat constructor ].
      apply Forall_app. split; [ exact Hopen | repeat constructor ].
    + rewrite Hc. repeat constructor.
    + split; [ exact (opened_records self idb w1 d rs Hd Hrs Hdur _ Hidb) | ].
      rewrite Htr, Hlog, Hh. cbn [t0 note set_oncomplete set_onerror log]. unfold h.
      rewrite !in_app_iff. cbn [In].
      pose proof (openTransaction_trace env readwrite self idb) as Hop.
      rewrite Hw1 in Hop. cbn [fst] in Hop. rewrite Forall_forall in Hop, Hall.
      intros [[[[Hin|[Hin|[]]]|[Hin|[]]]|Hin]|[Hin|[]]]; try discriminate Hin.
      * apply list_elem_of_In, Hop in Hin. discriminate Hin.
      * apply list_elem_of_In, Hall in Hin.
        destruct Hin as [Hin|[Hin|[[k Hin]|[k Hin]]]];
          [ destruct Hin as [x [Hx|[]]] | | | ]; discriminate.
  - intros (e & He & Hin). exfalso. rewrite Forall_forall in Hopen.
    apply list_elem_of_In, Hopen in Hin. congruence.
Qed.

End Aborting.

(** ** The properties above on examples *)

(** The store ["other"] of the database the operations work on. *)
Lemma operations_leave_other_stores_witness :
  let env := failing_on "a" RequestErrorIsLocal in
  let self := new_Persistence (datastore [plain "a" []; plain "b" []]) in
  let idb : gmap string database :=
    {[ "db" := mkDatabase 1 (<["other" := [plain "z" []]]> {[ "docs" := [plain "c" []] ]}) ]} in
  (forall objects,
      records_of "db" "other" (indexedDB (persistNewState env self objects (start idb)))
      = records_of "db" "other" idb)
  /\ records_of "db" "other" (indexedDB (persistCachedDatabase env self (start idb)))
     = records_of "db" "other" idb
  /\ records_of "db" "other" (indexedDB (loadDatabase env self (start idb)))
     = records_of "db" "other" idb.
Proof.
  apply (operations_leave_other_stores (failing_on "a" RequestErrorIsLocal)
           (new_Persistence (datastore [plain "a" []; plain "b" []]))).
  right. vm_compute. discriminate.
Defined.


(** The delta that deletes ["a"] and adds ["b"], on a store that holds ["a"]
    and ["c"]. *)
Lemma persistNewState_writes_delta_witness :
  let env := reliable RequestErrorAborts in
  let self := new_Persistence (datastore []) in
  let delta := [tombstone "a"; plain "b" [("name", "x")]] in
  let w := persistNewState env self delta (start (holding ["a"; "c"])) in
  durableRecords self w
  = fold_left apply_doc delta (durableRecords self (start (holding ["a"; "c"])))
  /\ requests (trace w) = map request_of delta
  /\ last (trace w) = Some (EvCallback None).
Proof.
  apply (persistNewState_writes_delta (reliable RequestErrorAborts)
           (new_Persistence (datastore [])) [tombstone "a"; plain "b" [("name", "x")]]
           (holding ["a"; "c"])); vm_compute; reflexivity.
Defined.


(** The put of ["a"] fails; the store is there, so that no opening throws. *)
Lemma operations_call_back_last_witness :
  let env := failing_on "a" RequestErrorAborts in
  let self := new_Persistence (datastore [plain "a" []]) in
  let idb := holding ["c"] in
  (exists x, last (trace (persistCachedDatabase env self (start idb))) = Some (EvCallback x))
  /\ (exists x, last (trace (loadDatabase env self (start idb))) = Some (EvCallback x))
  /\ forall objects,
       exists x, last (trace (persistNewState env self objects (start idb)))
                 = Some (EvCallback x).
Proof.
  apply (operations_call_back_last (failing_on "a" RequestErrorAborts)
           (new_Persistence (datastore [plain "a" []])) (holding ["c"])).
  intros (_ & d0 & Hd0 & Hc & _). vm_compute in Hd0. injection Hd0 as <-.
  vm_compute in Hc. discriminate Hc.
Defined.

(** A marker between two documents: ["z"] is not written. *)
Lemma persistNewState_marker_ends_batch_witness :
  let env := reliable RequestErrorAborts in
  let self := new_Persistence (datastore []) in
  let w := persistNewState env self ([plain "b" []] ++ indexMarker :: [plain "z" []])
             (start (holding ["a"])) in
  requests (trace w) = map request_of [plain "b" []]
  /\ durableRecords self w
     = fold_left apply_doc [plain "b" []] (durableRecords self (start (holding ["a"])))
  /\ last (trace w) = Some (EvCallback None).
Proof.
  apply (persistNewState_marker_ends_batch (reliable RequestErrorAborts)
           (new_Persistence (datastore [])) [plain "b" []] indexMarker [plain "z" []]
           (holding ["a"])); vm_compute; reflexivity.
Defined.

(** The first compaction, on an engine that has no database yet. *)
Lemma persistCachedDatabase_fills_empty_store_witness :
  let env := reliable RequestErrorAborts in
  let self := new_Persistence (datastore [plain "a" []; plain "b" []]) in
  let w := persistCachedDatabase env self (start ∅) in
  same_keys (durableKeys self w) (map _id (getAllData (db self)))
  /\ last (trace w) = Some (EvCallback None).
Proof.
  apply (persistCachedDatabase_fills_empty_store (reliable RequestErrorAborts)
           (new_Persistence (datastore [plain "a" []; plain "b" []])) ∅).
  - intros k. reflexivity.
  - intros k. reflexivity.
  - reflexivity.
  - vm_compute. reflexivity.
  - vm_compute. reflexivity.
Defined.

(** The second compaction of the same snapshot. *)
Lemma persistCachedDatabase_drops_stored_snapshot_witness :
  let env := reliable RequestErrorAborts in
  let self := new_Persistence (datastore [plain "a" []; plain "c" []]) in
  let w := persistCachedDatabase env self (start (holding ["a"; "c"])) in
  durableRecords self w = [] /\ last (trace w) = Some (EvCallback None).
Proof.
  apply (persistCachedDatabase_drops_stored_snapshot (reliable RequestErrorAborts)
           (new_Persistence (datastore [plain "a" []; plain "c" []])) (holding ["a"; "c"])).
  - intros k. reflexivity.
  - intros k. reflexivity.
  - reflexivity.
  - vm_compute. reflexivity.
  - constructor; [ vm_compute; auto | ].
    constructor; [ vm_compute; auto | constructor ].
Defined.

(** The put of ["a"] fails. *)
Lemma persistCachedDatabase_put_error_calls_back_twice_witness :
  let tr := trace (persistCachedDatabase (failing_on "a" RequestErrorAborts)
                     (new_Persistence (datastore [plain "a" []])) (start (holding ["c"]))) in
  exists before x,
    tr = (before ++ [EvCallback x])%list /\ In (EvCallback (Some (put_error "a"))) before.
Proof.
  apply (persistCachedDatabase_put_error_calls_back_twice (failing_on "a" RequestErrorAborts)
           (new_Persistence (datastore [plain "a" []])) (holding ["c"]) "a").
  vm_compute. auto 10.
Defined.

(** The put of ["b"] goes through, the put of ["a"] fails: ["b"] is not
    stored. *)
Lemma persistNewState_failure_rolls_back_witness :
  let env := failing_on "a" RequestErrorAborts in
  let self := new_Persistence (datastore []) in
  let w := persistNewState env self [plain "b" []; plain "a" []] (start (holding ["c"])) in
  durableRecords self w = durableRecords self (start (holding ["c"]))
  /\ ~ In (EvCallback None) (trace w).
Proof.
  apply (persistNewState_failure_rolls_back (failing_on "a" RequestErrorAborts) eq_refl
           (new_Persistence (datastore [])) [plain "b" []; plain "a" []] (holding ["c"])).
  exists (EvPut "a" false). split; [ reflexivity | vm_compute; auto 10 ].
Defined.

(** The put of ["a"] goes through; the delete of ["c"] fails. *)
Lemma persistCachedDatabase_failure_rolls_back_witness :
  let env := failing_on "c" RequestErrorAborts in
  let self := new_Persistence (datastore [plain "a" []; plain "b" []]) in
  let w := persistCachedDatabase env self (start (holding ["c"; "d"; "e"])) in
  durableRecords self w = durableRecords self (start (holding ["c"; "d"; "e"]))
  /\ ~ In (EvCallback None) (trace w).
Proof.
  apply (persistCachedDatabase_failure_rolls_back (failing_on "c" RequestErrorAborts) eq_refl
           (new_Persistence (datastore [plain "a" []; plain "b" []]))
           (holding ["c"; "d"; "e"])).
  exists (EvDelete "c" false). split; [ reflexivity | vm_compute; auto 20 ].
Defined.
